(** * YouTube RAG assistant: a shallow embedding of [utils.py],
      [rag_system.py] and the session logic of [app.py].

    Python [str] values are modelled as [string], holding the UTF-8 bytes
    of the text; the regular-expression engine works on the underlying
    [list ascii], and the pattern of this program mentions ASCII characters
    only, so a match covers the same text either way.  Calls into third-party
    services (transcript provider, splitter, vector store, language model)
    are parameters of the model: the code only passes values to them. *)

From Stdlib Require Import String Ascii List Bool Arith Lia Floats DecimalString.
Import ListNotations.

Local Open Scope list_scope.
Local Open Scope string_scope.

(* ===================================================================== *)
(** ** Python string helpers *)
(* ===================================================================== *)

Module PyStr.

(** [sep.join(parts)]. *)
Fixpoint join (sep : string) (parts : list string) : string :=
  match parts with
  | [] => EmptyString
  | [p] => p
  | p :: rest => p ++ sep ++ join sep rest
  end.

Definition chars (s : string) : list ascii := list_ascii_of_string s.
Definition of_chars (l : list ascii) : string := string_of_list_ascii l.

(** [str(n)] for a non-negative integer. *)
Definition of_nat (n : nat) : string :=
  NilEmpty.string_of_uint (Nat.to_uint n).

Definition newline : ascii := ascii_of_nat 10.
Definition nl : string := String newline EmptyString.

End PyStr.

(* ===================================================================== *)
(** ** The fragment of Python's [re] used by [extract_video_id] *)
(* ===================================================================== *)

Module Re.

(** Pattern syntax: literals, character sets, alternation, sequencing,
    bounded repetition [{n}], one capturing group, and the [$] anchor.
    [(?:...)] groups do not capture and are plain nesting here. *)
Inductive regex : Type :=
| Lit (s : list ascii)
| Set_ (p : ascii -> bool)
| Alt (a b : regex)
| Cat (a b : regex)
| Repeat (n : nat) (a : regex)
| Group (a : regex)
| Dollar.

(** Contents of capturing group 1, when it took part in the match. *)
Definition capture := option (list ascii).

Fixpoint starts_with (l s : list ascii) : bool :=
  match l, s with
  | [], _ => true
  | a :: l', b :: s' => Ascii.eqb a b && starts_with l' s'
  | _ :: _, [] => false
  end.

(** Without [re.MULTILINE], [$] matches at the end of the string and
    just before a newline that is the last character. *)
Definition at_dollar (s : list ascii) : bool :=
  match s with
  | [] => true
  | [c] => Ascii.eqb c PyStr.newline
  | _ => false
  end.

Section Matcher.
Context {R : Type}.

(** Backtracking matcher in continuation-passing style: [k] receives
    the rest of the subject and the capture so far; [None] means the
    engine backtracks. Alternatives are tried left to right. *)
Fixpoint match_re (r : regex) (s : list ascii) (cap : capture)
         (k : list ascii -> capture -> option R) {struct r} : option R :=
  match r with
  | Lit l =>
      if starts_with l s then k (skipn (length l) s) cap else None
  | Set_ p =>
      match s with
      | c :: s' => if p c then k s' cap else None
      | [] => None
      end
  | Alt a b =>
      match match_re a s cap k with
      | Some res => Some res
      | None => match_re b s cap k
      end
  | Cat a b =>
      match_re a s cap (fun s' cap' => match_re b s' cap' k)
  | Repeat n a =>
      (fix rep (n : nat) (s : list ascii) (cap : capture) : option R :=
         match n with
         | O => k s cap
         | S n' => match_re a s cap (fun s' cap' => rep n' s' cap')
         end) n s cap
  | Group a =>
      match_re a s cap
        (fun s' _ => k s' (Some (firstn (length s - length s') s)))
  | Dollar =>
      if at_dollar s then k s cap else None
  end.
End Matcher.

(** [pattern.match] at one start position: the capture of the match. *)
Definition match_here (r : regex) (s : list ascii) : option capture :=
  match_re r s None (fun _ cap => Some cap).

(** [re.search]: the match at the leftmost start position that has one;
    the position after the last character is tried too. *)
Fixpoint search (r : regex) (s : list ascii) : option capture :=
  match match_here r s with
  | Some m => Some m
  | None =>
      match s with
      | [] => None
      | _ :: s' => search r s'
      end
  end.

End Re.

(* ===================================================================== *)
(** ** utils.py: [extract_video_id] *)
(* ===================================================================== *)

Definition in_range (lo hi c : ascii) : bool :=
  Nat.leb (nat_of_ascii lo) (nat_of_ascii c)
  && Nat.leb (nat_of_ascii c) (nat_of_ascii hi).

(** The set [[0-9A-Za-z_-]]. *)
Definition id_char (c : ascii) : bool :=
  in_range "0"%char "9"%char c || in_range "A"%char "Z"%char c
  || in_range "a"%char "z"%char c
  || Ascii.eqb c "_"%char || Ascii.eqb c "-"%char.

(** The set [[&?]]. *)
Definition amp_or_qmark (c : ascii) : bool :=
  Ascii.eqb c "&"%char || Ascii.eqb c "?"%char.

(** [pattern = r"(?:v=|/)([0-9A-Za-z_-]{11})(?:[&?]|$)"] *)
Definition pattern : Re.regex :=
  Re.Cat (Re.Alt (Re.Lit (PyStr.chars "v=")) (Re.Lit (PyStr.chars "/")))
    (Re.Cat (Re.Group (Re.Repeat 11 (Re.Set_ id_char)))
            (Re.Alt (Re.Set_ amp_or_qmark) Re.Dollar)).

(** [match.group(1) if match else None] *)
Definition extract_video_id (url : string) : option string :=
  match Re.search pattern (PyStr.chars url) with
  | Some (Some g) => Some (PyStr.of_chars g)
  | Some None => None
  | None => None
  end.

(* ===================================================================== *)
(** ** Python effects: exceptions, output and calls to outside services *)
(* ===================================================================== *)

Module Py.

(** The exception classes that the code raises, catches or lets through.
    All derive from [Exception] except Streamlit's script-control
    exceptions, which derive from [BaseException]. *)
Inductive exn : Type :=
| NoTranscriptFound (msg : string)
| RuntimeError (msg : string)
| AttributeError (msg : string)
| OtherError (cls msg : string)   (* any other [Exception] subclass *)
| StopException                   (* raised by [st.stop()] *)
| RerunException.                 (* raised by [st.rerun()] *)

(** [str(e)] *)
Definition str (e : exn) : string :=
  match e with
  | NoTranscriptFound m | RuntimeError m | AttributeError m => m
  | OtherError _ m => m
  | StopException | RerunException => EmptyString
  end.

(** [isinstance(e, NoTranscriptFound)] *)
Definition is_NoTranscriptFound (e : exn) : bool :=
  match e with NoTranscriptFound _ => true | _ => false end.

(** [isinstance(e, Exception)] *)
Definition is_Exception (e : exn) : bool :=
  match e with StopException | RerunException => false | _ => true end.

Inductive result (A : Type) : Type :=
| Ok (a : A)
| Raise (e : exn).
Arguments Ok {A} a.
Arguments Raise {A} e.

(** What a run does that is visible outside: console output, Streamlit
    messages, and the calls made to outside services. *)
Inductive event : Type :=
| EPrint (msg : string)
| ESt (element msg : string)
| EFetch (video_id : string) (languages : list string)
| EEmbed (texts : list string)
| ERetrieve (k : nat) (query : string)
| ELlm (model prompt : string).

(** A computation over a mutable object of type [S]: it returns the
    events in order, the object as it is when the computation ends
    (also when it ends by an exception), and a value or an exception. *)
Definition M (S A : Type) : Type := S -> list event * S * result A.

Section Ops.
Context {S : Type}.

Definition ret {A} (a : A) : M S A := fun s => ([], s, Ok a).

Definition bind {A B} (m : M S A) (f : A -> M S B) : M S B :=
  fun s =>
    match m s with
    | (t, s1, Ok a) =>
        match f a s1 with
        | (t', s2, r) => ((t ++ t')%list, s2, r)
        end
    | (t, s1, Raise e) => (t, s1, Raise e)
    end.

Definition raise {A} (e : exn) : M S A := fun s => ([], s, Raise e).

Definition get : M S S := fun s => ([], s, Ok s).

Definition modify (f : S -> S) : M S unit := fun s => ([], f s, Ok tt).

Definition emit (e : event) : M S unit := fun s => ([e], s, Ok tt).

(** A call to an outside service: logged, then its outcome. *)
Definition call {A} (e : event) (outcome : result A) : M S A :=
  fun s => ([e], s, outcome).

(** [try: body / except <handles> as e: handler e] *)
Definition try_except {A} (body : M S A) (handles : exn -> bool)
           (handler : exn -> M S A) : M S A :=
  fun s =>
    match body s with
    | (t, s1, Raise e) =>
        if handles e then
          match handler e s1 with
          | (t', s2, r) => ((t ++ t')%list, s2, r)
          end
        else (t, s1, Raise e)
    | done => done
    end.

(** Run a method on an object held in a local variable. *)
Definition on_local {O A} (o : O) (m : M O A) : M S (O * A) :=
  fun s =>
    match m o with
    | (t, o', Ok a) => (t, s, Ok (o', a))
    | (t, _, Raise e) => (t, s, Raise e)
    end.
End Ops.

Definition print {S} (msg : string) : M S unit := emit (EPrint msg).

(** The three parts of a finished run. *)
Definition events_of {S A} (x : list event * S * result A) : list event :=
  fst (fst x).
Definition state_of {S A} (x : list event * S * result A) : S := snd (fst x).
Definition result_of {S A} (x : list event * S * result A) : result A := snd x.

(** The transcript requests among the events, in order. *)
Fixpoint fetch_calls (t : list event) : list (string * list string) :=
  match t with
  | [] => []
  | EFetch v langs :: t' => (v, langs) :: fetch_calls t'
  | _ :: t' => fetch_calls t'
  end.

End Py.

Import Py.

Declare Scope py_scope.
Delimit Scope py_scope with py.
Notation "x <- m ;; k" := (Py.bind m (fun x => k))
  (at level 61, m at next level, right associativity) : py_scope.
Notation "m ;; k" := (Py.bind m (fun _ => k))
  (at level 61, right associativity) : py_scope.
Local Open Scope py_scope.

(* ===================================================================== *)
(** ** Data held by the program *)
(* ===================================================================== *)

(** A snippet of a fetched transcript. *)
Record Snippet : Type := { text : string; start : float; duration : float }.

(** A LangChain document: only [page_content] is read by this code. *)
Record Document : Type := { page_content : string }.

(** [RecursiveCharacterTextSplitter(chunk_size=..., chunk_overlap=...)] *)
Record TextSplitter : Type :=
  { ts_chunk_size : nat; ts_chunk_overlap : nat }.

(** [OpenAIEmbeddings(model=...)] *)
Record Embeddings : Type := { emb_model : string }.

(** [ChatOpenAI(model=..., temperature=...)] *)
Record ChatOpenAI : Type := { llm_model : string; llm_temperature : float }.

(** [PromptTemplate(template=..., input_variables=...)] *)
Record PromptTemplate : Type :=
  { template : string; input_variables : list string }.

(** A FAISS store: the documents and one vector for each. *)
Record VectorStore : Type :=
  { vs_documents : list Document; vs_vectors : list (list float) }.

(** [vector_store.as_retriever(search_type=..., search_kwargs={"k": ...})] *)
Record Retriever : Type :=
  { r_store : VectorStore; r_search_type : string; r_k : nat }.

(** The runnable built by [_build_chain]:
    [{'context': retriever | _format_docs, 'question': passthrough}
     | prompt | llm | StrOutputParser()]. *)
Record Chain : Type :=
  { c_retriever : Retriever; c_prompt : PromptTemplate; c_llm : ChatOpenAI }.

Record RAGSystem : Type :=
  { chunk_size : nat;
    chunk_overlap : nat;
    k : nat;
    temperature : float;
    splitter : TextSplitter;
    embeddings_model : Embeddings;
    llm : ChatOpenAI;
    prompt : PromptTemplate;
    vector_store : option VectorStore;
    retriever : option Retriever;
    chain : option Chain }.

(** The outside services. The program only calls them. *)
Record World : Type :=
  { (** [YouTubeTranscriptApi().fetch(video_id, languages=...)] *)
    ytt_fetch : string -> list string -> result (list Snippet);
    (** [splitter.create_documents(texts)] *)
    create_documents : TextSplitter -> list string -> list Document;
    (** [FAISS.from_documents(chunks, embeddings_model)] *)
    from_documents : list Document -> Embeddings -> result VectorStore;
    (** [retriever.invoke(question)] *)
    retriever_invoke : Retriever -> string -> result (list Document);
    (** [llm.invoke(prompt)], reduced to the text of the reply *)
    llm_invoke : ChatOpenAI -> string -> result string }.

(* ===================================================================== *)
(** ** utils.py: [fetch_transcript] *)
(* ===================================================================== *)

Section Utils.
Variable w : World.
Context {S : Type}.

Definition ytt_api_fetch (video_id : string) (languages : list string)
  : M S (list Snippet) :=
  call (EFetch video_id languages) (ytt_fetch w video_id languages).

Definition msg_no_english : string :=
  "⚠️ No English transcript found, trying auto or other languages...".

Definition msg_not_available : string :=
  "❌ Transcript not available for this video: ".

Definition msg_extracted : string :=
  "✅ Transcript successfully extracted!" ++ PyStr.nl.

Definition fetch_transcript (video_id : string) : M S string :=
  fetched_transcript <-
    try_except
      (ytt_api_fetch video_id ["en"])
      is_NoTranscriptFound
      (fun _ =>
         print msg_no_english ;;
         try_except
           (ytt_api_fetch video_id ["auto"; "hi"; "en"])
           is_Exception
           (fun e => raise (RuntimeError (msg_not_available ++ str e)))) ;;
  let full_text := PyStr.join " " (map text fetched_transcript) in
  print msg_extracted ;;
  ret full_text.

End Utils.

(* ===================================================================== *)
(** ** rag_system.py: [RAGSystem] *)
(* ===================================================================== *)

(** [template.format] with keyword arguments, for templates whose fields
    are plain [{name}]: text outside braces is copied, [{{] and [}}] stand
    for one brace, a field is replaced by the value bound to its name, and
    a brace on its own is an error. [field] holds the name being read. *)
Fixpoint format_from (t : string) (field : option string)
         (kwargs : list (string * string)) {struct t} : result string :=
  match t, field with
  | EmptyString, None => Ok EmptyString
  | EmptyString, Some _ =>
      Raise (OtherError "ValueError" "expected '}' before end of string")
  | String c t', None =>
      if Ascii.eqb c "{"%char then
        match t' with
        | EmptyString =>
            Raise (OtherError "ValueError" "Single '{' encountered in format string")
        | String c2 t'' =>
            if Ascii.eqb c2 "{"%char then
              match format_from t'' None kwargs with
              | Ok r => Ok (String "{"%char r)
              | Raise e => Raise e
              end
            else format_from t' (Some EmptyString) kwargs
        end
      else if Ascii.eqb c "}"%char then
        match t' with
        | EmptyString =>
            Raise (OtherError "ValueError" "Single '}' encountered in format string")
        | String c2 t'' =>
            if Ascii.eqb c2 "}"%char then
              match format_from t'' None kwargs with
              | Ok r => Ok (String "}"%char r)
              | Raise e => Raise e
              end
            else
              Raise (OtherError "ValueError" "Single '}' encountered in format string")
        end
      else
        match format_from t' None kwargs with
        | Ok r => Ok (String c r)
        | Raise e => Raise e
        end
  | String c t', Some name =>
      if Ascii.eqb c "}"%char then
        match find (fun kv => String.eqb (fst kv) name) kwargs with
        | Some kv =>
            match format_from t' None kwargs with
            | Ok r => Ok (snd kv ++ r)
            | Raise e => Raise e
            end
        | None => Raise (OtherError "KeyError" ("'" ++ name ++ "'"))
        end
      else format_from t' (Some (name ++ String c EmptyString)) kwargs
  end.

Definition format (p : PromptTemplate) (kwargs : list (string * string))
  : result string :=
  format_from (template p) None kwargs.

Definition prompt_template : string :=
"You are an expert AI assistant. Use the following context to answer the question at the end.
      if you don't know the answer, just say that you don't know, don't try to make up an answer.
        Context: {context}
        question: {question}
         ".

(** [RAGSystem.__init__] *)
Definition RAGSystem_init (chunk_size chunk_overlap k : nat) (temperature : float)
  : RAGSystem :=
  {| chunk_size := chunk_size;
     chunk_overlap := chunk_overlap;
     k := k;
     temperature := temperature;
     splitter := {| ts_chunk_size := chunk_size; ts_chunk_overlap := chunk_overlap |};
     embeddings_model := {| emb_model := "text-embedding-3-small" |};
     llm := {| llm_model := "gpt-4o-mini"; llm_temperature := temperature |};
     prompt := {| template := prompt_template;
                  input_variables := ["context"; "question"] |};
     vector_store := None;
     retriever := None;
     chain := None |}.

Definition set_vector_store (v : option VectorStore) (self : RAGSystem) : RAGSystem :=
  {| chunk_size := chunk_size self; chunk_overlap := chunk_overlap self;
     k := k self; temperature := temperature self; splitter := splitter self;
     embeddings_model := embeddings_model self; llm := llm self;
     prompt := prompt self;
     vector_store := v; retriever := retriever self; chain := chain self |}.

Definition set_retriever (r : option Retriever) (self : RAGSystem) : RAGSystem :=
  {| chunk_size := chunk_size self; chunk_overlap := chunk_overlap self;
     k := k self; temperature := temperature self; splitter := splitter self;
     embeddings_model := embeddings_model self; llm := llm self;
     prompt := prompt self;
     vector_store := vector_store self; retriever := r; chain := chain self |}.

Definition set_chain (c : option Chain) (self : RAGSystem) : RAGSystem :=
  {| chunk_size := chunk_size self; chunk_overlap := chunk_overlap self;
     k := k self; temperature := temperature self; splitter := splitter self;
     embeddings_model := embeddings_model self; llm := llm self;
     prompt := prompt self;
     vector_store := vector_store self; retriever := retriever self; chain := c |}.

(** [RAGSystem._format_docs] *)
Definition _format_docs (retrieved_docs : list Document) : string :=
  let context_texts := PyStr.join (PyStr.nl ++ PyStr.nl) (map page_content retrieved_docs) in
  context_texts.

Section Rag.
Variable w : World.

(** [RAGSystem._build_chain] *)
Definition _build_chain : M RAGSystem unit :=
  self <- get ;;
  match retriever self with
  | Some r =>
      modify (set_chain (Some {| c_retriever := r;
                                 c_prompt := prompt self;
                                 c_llm := llm self |}))
  | None =>
      raise (OtherError "TypeError"
               "Expected a Runnable, callable or dict.Instead got an unsupported type: <class 'NoneType'>")
  end.

(** [RAGSystem.index_transcript] *)
Definition index_transcript (transcript_text : string) : M RAGSystem unit :=
  self <- get ;;
  let chunks := create_documents w (splitter self) [transcript_text] in
  print ("📄 Created " ++ PyStr.of_nat (length chunks) ++ " chunks") ;;
  vs <- call (EEmbed (map page_content chunks))
             (from_documents w chunks (embeddings_model self)) ;;
  modify (set_vector_store (Some vs)) ;;
  modify (set_retriever (Some {| r_store := vs;
                                 r_search_type := "similarity";
                                 r_k := k self |})) ;;
  _build_chain ;;
  print "✅ Indexing complete!".

(** [chain.invoke(question)]: retrieve, format the documents, fill the
    prompt, call the model, return the text of its reply. *)
Definition chain_invoke {S} (c : Chain) (question : string) : M S string :=
  docs <- call (ERetrieve (r_k (c_retriever c)) question)
               (retriever_invoke w (c_retriever c) question) ;;
  let context := _format_docs docs in
  match format (c_prompt c) [("context", context); ("question", question)] with
  | Raise e => raise e
  | Ok filled =>
      call (ELlm (llm_model (c_llm c)) filled) (llm_invoke w (c_llm c) filled)
  end.

(** [RAGSystem.query] *)
Definition query (question : string) : M RAGSystem string :=
  self <- get ;;
  match chain self with
  | None =>
      raise (RuntimeError "System not indexed yet. Call index_transcript() first.")
  | Some c => chain_invoke c question
  end.

End Rag.

(* ===================================================================== *)
(** ** app.py: the Streamlit script and its session state *)
(* ===================================================================== *)

(** [st.session_state] once the four keys have been initialised. *)
Record SessionState : Type :=
  { rag_system : option RAGSystem;
    indexed : bool;
    video_id : option string;
    chat_history : list (string * string) }.

(** The values given to the keys that are not yet in the session. *)
Definition fresh_session : SessionState :=
  {| rag_system := None; indexed := false; video_id := None; chat_history := [] |}.

Definition set_rag_system (r : option RAGSystem) (s : SessionState) : SessionState :=
  {| rag_system := r; indexed := indexed s; video_id := video_id s;
     chat_history := chat_history s |}.

Definition set_indexed (b : bool) (s : SessionState) : SessionState :=
  {| rag_system := rag_system s; indexed := b; video_id := video_id s;
     chat_history := chat_history s |}.

Definition set_video_id (v : option string) (s : SessionState) : SessionState :=
  {| rag_system := rag_system s; indexed := indexed s; video_id := v;
     chat_history := chat_history s |}.

Definition set_chat_history (h : list (string * string)) (s : SessionState)
  : SessionState :=
  {| rag_system := rag_system s; indexed := indexed s; video_id := video_id s;
     chat_history := h |}.

(** What the widgets return in one run of the script. *)
Record Widgets : Type :=
  { openai_api_key : bool;          (* [os.getenv("OPENAI_API_KEY")] is set *)
    youtube_url : string;
    w_chunk_size : nat;
    w_chunk_overlap : nat;
    k_retrieval : nat;
    w_temperature : float;
    process_video_clicked : bool;
    clear_conversation_clicked : bool;
    question : option string }.

Section App.
Variable w : World.

Definition st (element msg : string) : M SessionState unit :=
  emit (ESt element msg).

Definition st_stop {A} : M SessionState A := raise StopException.
Definition st_rerun {A} : M SessionState A := raise RerunException.

Definition invalid_url {A} : M SessionState A :=
  st "error" "❌ Invalid YouTube URL" ;; st_stop.

(** The [try] block of the Process Video handler. *)
Definition process_attempt (wd : Widgets) : M SessionState unit :=
  vid <- match extract_video_id (youtube_url wd) with
         | None => invalid_url
         | Some v => if String.eqb v "" then invalid_url else ret v
         end ;;
  modify (set_video_id (Some vid)) ;;
  st "info" ("🎥 Video ID: " ++ vid) ;;
  transcript_text <- fetch_transcript w vid ;;
  st "success" "✅ Transcript fetched successfully!" ;;
  let rag := RAGSystem_init (w_chunk_size wd) (w_chunk_overlap wd)
                            (k_retrieval wd) (w_temperature wd) in
  indexed_rag <- on_local rag (index_transcript w transcript_text) ;;
  modify (set_rag_system (Some (fst indexed_rag))) ;;
  modify (set_indexed true) ;;
  modify (set_chat_history []) ;;
  st "success" "🎉 Video indexed! You can now ask questions.".

(** Its [except Exception as e] block. *)
Definition process_failed (e : exn) : M SessionState unit :=
  st "error" ("❌ Error: " ++ str e) ;;
  modify (set_indexed false).

(** The body of [if st.button("Process Video", ...)]. *)
Definition process_video (wd : Widgets) : M SessionState unit :=
  if String.eqb (youtube_url wd) "" then
    st "error" "Please enter a YouTube URL"
  else
    try_except (process_attempt wd) is_Exception process_failed.

(** [st.session_state.rag_system.query(question)]: the method runs on
    the object stored in the session. *)
Definition session_query (q : string) : M SessionState string :=
  fun s =>
    match rag_system s with
    | None =>
        ([], s, Raise (AttributeError "'NoneType' object has no attribute 'query'"))
    | Some rag =>
        match query w q rag with
        | (t, rag', r) => (t, set_rag_system (Some rag') s, r)
        end
    end.

Definition sidebar (wd : Widgets) : M SessionState unit :=
  (if openai_api_key wd then st "success" "✅ API Key loaded"
   else st "error" "⚠️ OPENAI_API_KEY not found in .env file" ;; st_stop) ;;
  (if process_video_clicked wd then process_video wd else ret tt) ;;
  s <- get ;;
  if indexed s then
    if clear_conversation_clicked wd then
      modify (set_chat_history []) ;; st_rerun
    else ret tt
  else ret tt.

Fixpoint show_history (h : list (string * string)) : M SessionState unit :=
  match h with
  | [] => ret tt
  | (q, a) :: rest => st "write" q ;; st "write" a ;; show_history rest
  end.

Definition main_area (wd : Widgets) : M SessionState unit :=
  s <- get ;;
  if negb (indexed s) then
    st "info" "👈 Enter a YouTube URL in the sidebar and click 'Process Video' to get started!"
  else
    st "markdown" ("### 💬 Chat about Video: `"
                   ++ match video_id s with Some v => v | None => "None" end
                   ++ "`") ;;
    show_history (chat_history s) ;;
    match question wd with
    | None => ret tt
    | Some q =>
        if String.eqb q "" then ret tt
        else
          st "write" q ;;
          try_except
            (answer <- session_query q ;;
             st "write" answer ;;
             modify (fun s => set_chat_history (chat_history s ++ [(q, answer)])%list s))
            is_Exception
            (fun e => st "error" ("Error: " ++ str e))
    end.

(** One run of the script from top to bottom (static page elements are
    left out). *)
Definition script (wd : Widgets) : M SessionState unit :=
  sidebar wd ;; main_area wd.

(** The session as the run leaves it, however the run ends. *)
Definition run (wd : Widgets) (s : SessionState) : SessionState :=
  snd (fst (script wd s)).

End App.

(** ** Sample outside worlds, for concrete runs *)

Module Sample.

Definition snippets : list Snippet :=
  [ {| text := "never gonna"; start := 0%float; duration := 1.5%float |};
    {| text := "give you up"; start := 1.5%float; duration := 2%float |} ].

Definition no_transcript : exn :=
  NoTranscriptFound "No transcripts were found for any of the requested language codes".

Definition connection_error : exn :=
  OtherError "RequestException" "connection failed".

(** One document for each text, a zero vector for each document, the
    first [k] documents on retrieval, a fixed reply. *)
Definition one_document_each (_ : TextSplitter) (texts : list string)
  : list Document :=
  map (fun t => {| page_content := t |}) texts.

Definition store_of (docs : list Document) (_ : Embeddings) : result VectorStore :=
  Ok {| vs_documents := docs; vs_vectors := map (fun _ => [0%float]) docs |}.

Definition first_k (r : Retriever) (_ : string) : result (list Document) :=
  Ok (firstn (r_k r) (vs_documents (r_store r))).

Definition fixed_reply (_ : ChatOpenAI) (_ : string) : result string :=
  Ok "It is a song.".

Definition world_with (fetch : string -> list string -> result (list Snippet))
           (build : list Document -> Embeddings -> result VectorStore) : World :=
  {| ytt_fetch := fetch;
     create_documents := one_document_each;
     from_documents := build;
     retriever_invoke := first_k;
     llm_invoke := fixed_reply |}.

(** Every service answers. *)
Definition world_up : World :=
  world_with (fun _ _ => Ok snippets) store_of.

(** Only the fallback languages have a transcript. *)
Definition world_fallback : World :=
  world_with (fun _ langs =>
                match langs with
                | [_] => Raise no_transcript
                | _ => Ok snippets
                end) store_of.

(** No transcript in any language. *)
Definition world_no_transcript : World :=
  world_with (fun _ _ => Raise no_transcript) store_of.

(** The transcript provider cannot be reached. *)
Definition world_offline : World :=
  world_with (fun _ _ => Raise connection_error) store_of.

(** The embedding service fails. *)
Definition world_no_embeddings : World :=
  world_with (fun _ _ => Ok snippets)
             (fun _ _ => Raise (OtherError "AuthenticationError" "invalid api key")).

(** Only two chunks come out of the splitter. *)
Definition world_two_chunks : World :=
  {| ytt_fetch := fun _ _ => Ok snippets;
     create_documents := fun _ _ => [ {| page_content := "never gonna" |};
                                       {| page_content := "give you up" |} ];
     from_documents := store_of;
     retriever_invoke := first_k;
     llm_invoke := fixed_reply |}.

(** The default settings of [RAGSystem]; the temperature is [0.2] as a
    binary64 number. *)
Definition default_temperature : float := 0x1.999999999999ap-3%float.

Definition new_rag : RAGSystem := RAGSystem_init 1000 200 4 default_temperature.

(** An object on which the only [index_transcript] call failed. *)
Definition rag_after_failed_index : RAGSystem :=
  state_of (index_transcript world_no_embeddings "never gonna give you up" new_rag).

(** An object indexed where the splitter yields two chunks. *)
Definition rag_two_chunks : RAGSystem :=
  state_of (index_transcript world_two_chunks "never gonna give you up" new_rag).

Definition two_chunks_context : string :=
  "never gonna" ++ PyStr.nl ++ PyStr.nl ++ "give you up".

(** Runs of the page: a click on Process Video, a question. *)
Definition click_process (url : string) : Widgets :=
  {| openai_api_key := true;
     youtube_url := url;
     w_chunk_size := 1000;
     w_chunk_overlap := 200;
     k_retrieval := 4;
     w_temperature := default_temperature;
     process_video_clicked := true;
     clear_conversation_clicked := false;
     question := None |}.

Definition ask (url q : string) : Widgets :=
  {| openai_api_key := true;
     youtube_url := url;
     w_chunk_size := 1000;
     w_chunk_overlap := 200;
     k_retrieval := 4;
     w_temperature := default_temperature;
     process_video_clicked := false;
     clear_conversation_clicked := false;
     question := Some q |}.

Definition first_url : string := "https://www.youtube.com/watch?v=dQw4w9WgXcQ".
Definition second_url : string := "https://youtu.be/9bZkp7q19f0".

(** A session in which a video has been indexed and one question asked. *)
Definition ready_session : SessionState :=
  run world_up (ask first_url "What is the video about?")
      (run world_up (click_process first_url) fresh_session).

End Sample.

(* ===================================================================== *)
(** ** Vocabulary of the properties *)
(* ===================================================================== *)

(** The pattern at one position, written out for the proofs. *)
Module ReSpec.
Import Re.
Local Open Scope list_scope.

(** [n] characters of the set [p] at the head of [s], and what follows. *)
Fixpoint take_set (p : ascii -> bool) (s : list ascii) (n : nat) {struct n}
  : option (list ascii * list ascii) :=
  match n with
  | O => Some ([], s)
  | S n' =>
      match s with
      | [] => None
      | c :: s' =>
          if p c then
            match take_set p s' n' with
            | Some (t, r) => Some (c :: t, r)
            | None => None
            end
          else None
      end
  end.

(** What must follow the token: [[&?]], or the place where [$] matches. *)
Definition ends_here (r : list ascii) : bool :=
  match r with
  | c :: _ => amp_or_qmark c || at_dollar r
  | [] => true
  end.

Definition token_here (s : list ascii) : option capture :=
  match take_set id_char s 11 with
  | Some (t, r) => if ends_here r then Some (Some t) else None
  | None => None
  end.

(** The pattern tried at one position. *)
Definition here (s : list ascii) : option capture :=
  if starts_with (PyStr.chars "v=") s then token_here (skipn 2 s)
  else if starts_with (PyStr.chars "/") s then token_here (skipn 1 s)
  else None.

Definition amp : ascii := "&"%char.

Definition qmark : ascii := "?"%char.

(** The token ends the string, or is followed by [&] or [?], or by a
    newline that ends the string. *)
Definition ends_ok (rest : list ascii) : Prop :=
  rest = [] \/ (exists c r, rest = c :: r /\ (c = amp \/ c = qmark))
  \/ rest = [PyStr.newline].

(** A token starts at the head of [s]: an anchor, eleven characters of
    the set, and an accepted ending. *)
Definition token_at_head (s t : list ascii) : Prop :=
  exists a rest,
    s = a ++ t ++ rest
    /\ (a = PyStr.chars "v=" \/ a = PyStr.chars "/")
    /\ length t = 11
    /\ Forall (fun c => id_char c = true) t
    /\ ends_ok rest.

(** No position inside [pre] starts a match, whatever [s] is appended. *)
Fixpoint none_within (pre s : list ascii) : bool :=
  match pre with
  | [] => true
  | _ :: pre' =>
      match here (pre ++ s)%list with
      | None => none_within pre' s
      | Some _ => false
      end
  end.

End ReSpec.

(** Eleven characters of [[0-9A-Za-z_-]]. *)
Definition is_video_id (t : string) : Prop :=
  String.length t = 11 /\ Forall (fun c => id_char c = true) (PyStr.chars t).

(** What precedes the token: [v=] or a path separator. *)
Definition is_anchor (a : string) : Prop := a = "v=" \/ a = "/".

(** The token is followed by [&] or [?], or ends the string. *)
Definition ends_strictly (rest : string) : Prop :=
  rest = "" \/ exists c r, rest = String c r /\ (c = "&"%char \/ c = "?"%char).

(** As above, or the token is followed by a newline that ends the string. *)
Definition ends_token (rest : string) : Prop :=
  ends_strictly rest \/ rest = PyStr.nl.

(** [url] has the token [t] right after the prefix [pre]. *)
Definition token_at (ends : string -> Prop) (url pre t : string) : Prop :=
  exists a rest,
    url = pre ++ a ++ t ++ rest /\ is_anchor a /\ is_video_id t /\ ends rest.

Definition has_token (ends : string -> Prop) (url : string) : Prop :=
  exists pre t, token_at ends url pre t.

(** [t] is the token of [url] that starts first. *)
Definition first_token (ends : string -> Prop) (url t : string) : Prop :=
  exists pre,
    token_at ends url pre t
    /\ forall pre' t', token_at ends url pre' t' ->
                       String.length pre <= String.length pre'.

(** A short-form URL whose last character is a newline. *)
Definition url_trailing_newline : string :=
  "https://youtu.be/dQw4w9WgXcQ" ++ PyStr.nl.

(** The languages of the first attempt and of the fallback attempt. *)
Definition first_languages : list string := ["en"].

Definition fallback_languages : list string := ["auto"; "hi"; "en"].

(** The snippet texts in order, each after the first preceded by one space. *)
Definition space_separated (texts : list string) : string :=
  match texts with
  | [] => ""
  | first :: others => first ++ fold_right (fun x acc => " " ++ x ++ acc) "" others
  end.

(** The text of the template around its two fields. *)
Definition prompt_before_context : string :=
"You are an expert AI assistant. Use the following context to answer the question at the end.
      if you don't know the answer, just say that you don't know, don't try to make up an answer.
        Context: ".

Definition prompt_before_question : string :=
  PyStr.nl ++ "        question: ".

Definition prompt_after_question : string :=
  PyStr.nl ++ "         ".

(** The template with its fields filled. *)
Definition filled_prompt (context question : string) : string :=
  prompt_before_context ++ context ++ prompt_before_question ++ question
  ++ prompt_after_question.

(** The texts in order, each after the first preceded by a blank line. *)
Definition blank_line_separated (texts : list string) : string :=
  match texts with
  | [] => ""
  | first :: others =>
      first ++ fold_right (fun x acc => PyStr.nl ++ PyStr.nl ++ x ++ acc) "" others
  end.

(** The object has been constructed and no [index_transcript] call on it
    has succeeded yet. *)
Inductive never_indexed (w : World) : RAGSystem -> Prop :=
| ni_init cs co k t :
    never_indexed w (RAGSystem_init cs co k t)
| ni_index_failed rag transcript e :
    never_indexed w rag ->
    result_of (index_transcript w transcript rag) = Raise e ->
    never_indexed w (state_of (index_transcript w transcript rag))
| ni_query rag q :
    never_indexed w rag ->
    never_indexed w (state_of (query w q rag)).

Definition msg_created (n : nat) : string :=
  "📄 Created " ++ PyStr.of_nat n ++ " chunks".

(** The chunks that [index_transcript] embeds. *)
Definition chunks_of (w : World) (rag : RAGSystem) (transcript : string)
  : list Document :=
  create_documents w (splitter rag) [transcript].

(** The object after a successful [index_transcript]. *)
Definition indexed_with (vs : VectorStore) (rag : RAGSystem) : RAGSystem :=
  let r := {| r_store := vs; r_search_type := "similarity"; r_k := k rag |} in
  set_chain (Some {| c_retriever := r; c_prompt := prompt rag; c_llm := llm rag |})
    (set_retriever (Some r) (set_vector_store (Some vs) rag)).

(** [ends_in m s Q]: run from [s], [m] ends in a state and result that
    satisfy [Q]. Computations are total, so this is a claim about the
    one run there is. *)
Definition ends_in {S A} (m : M S A) (s : S) (Q : S -> result A -> Prop) : Prop :=
  Q (state_of (m s)) (result_of (m s)).

(** What an attempt leaves behind: a new index with an empty history when
    it succeeds; the stored index, the history and the flag as they were
    when it raises. *)
Definition attempt_post (s s' : SessionState) (r : result unit) : Prop :=
  match r with
  | Ok _ =>
      (exists rag, rag_system s' = Some rag /\ chain rag <> None)
      /\ chat_history s' = [] /\ indexed s' = true
  | Raise _ =>
      rag_system s' = rag_system s /\ chat_history s' = chat_history s
      /\ indexed s' = indexed s
  end.

(* ===================================================================== *)
(** ** main.py: the command-line loop *)
(* ===================================================================== *)

(** The string methods of Python that [main] calls. They work on code
    points and on Unicode classes, so they are taken as given. *)
Record Builtins : Type :=
  { (** [s.lower()] *)
    str_lower : string -> string;
    (** [s.strip()] *)
    str_strip : string -> string;
    (** [s[:n]] *)
    str_prefix : nat -> string -> string }.

(** What the loop does after one question. *)
Inductive loop_ctl : Type := Break | Continue.

Definition EOFError : exn := OtherError "EOFError" "EOF when reading a line".

(** [input(prompt)] on the lines still waiting on standard input: the
    prompt is written, the next line is returned, [EOFError] is raised
    when there is none. *)
Definition input (prompt_text : string) : M (list string) string :=
  fun stdin =>
    match stdin with
    | [] => ([EPrint prompt_text], [], Raise EOFError)
    | line :: rest => ([EPrint prompt_text], rest, Ok line)
    end.

Section Main.
Variable w : World.
Variable py : Builtins.

(** [question.lower() in ['quit', 'exit', 'q']] *)
Definition is_quit (question : string) : bool :=
  existsb (String.eqb (str_lower py question)) ["quit"; "exit"; "q"].

(** The body of the [while True] loop once the question is read. *)
Definition answer_question (question : string) : M RAGSystem loop_ctl :=
  if is_quit question then
    print "👋 Goodbye!" ;; ret Break
  else if String.eqb (str_strip py question) "" then
    ret Continue
  else
    try_except
      (answer <- query w question ;;
       print (PyStr.nl ++ "💡 Answer: " ++ answer ++ PyStr.nl))
      is_Exception
      (fun e => print ("❌ Error: " ++ str e ++ PyStr.nl)) ;;
    ret Continue.

(** The [while True] loop: every pass reads one line, so the loop is
    written by recursion on the lines that are left. *)
Fixpoint qa_loop (stdin : list string) (rag : RAGSystem)
  : list event * (list string * RAGSystem) * result unit :=
  match stdin with
  | [] => ([EPrint "Your question: "], ([], rag), Raise EOFError)
  | question :: rest =>
      match answer_question question rag with
      | (t, rag', Ok Continue) =>
          match qa_loop rest rag' with
          | (t', s', r) => ((EPrint "Your question: " :: t ++ t')%list, s', r)
          end
      | (t, rag', Ok Break) => (EPrint "Your question: " :: t, (rest, rag'), Ok tt)
      | (t, rag', Raise e) => (EPrint "Your question: " :: t, (rest, rag'), Raise e)
      end
  end.

Definition msg_preview (transcript_text : string) : string :=
  "📝 Transcript preview: " ++ str_prefix py 500 transcript_text ++ "..." ++ PyStr.nl.

Definition msg_ready : string :=
  PyStr.nl ++ "🤖 RAG System ready! Ask questions about the video (type 'quit' to exit)"
  ++ PyStr.nl.

(** The [try] block around [fetch_transcript] with its handler: the
    transcript, or nothing when the handler returned from [main]. *)
Definition fetch_or_report (video_id : string) : M (list string) (option string) :=
  try_except
    (transcript_text <- fetch_transcript w video_id ;;
     print (msg_preview transcript_text) ;;
     ret (Some transcript_text))
    is_Exception
    (fun e =>
       print ("❌ Error fetching transcript: " ++ str e) ;;
       ret None).

(** The rest of [main] once the transcript is there. *)
Definition index_and_ask (transcript_text : string) : M (list string) unit :=
  let rag := RAGSystem_init 1000 200 4 Sample.default_temperature in
  indexed_rag <- on_local rag (index_transcript w transcript_text) ;;
  print msg_ready ;;
  fun stdin =>
    match qa_loop stdin (fst indexed_rag) with
    | (t, (stdin', _), r) => (t, stdin', r)
    end.

(** [main()]; [api_key] tells whether [OPENAI_API_KEY] is set once the
    environment is loaded. The state is standard input. *)
Definition main (api_key : bool) : M (list string) unit :=
  if negb api_key then
    print "❌ Error: OPENAI_API_KEY not found in .env file"
  else
    url <- input "Enter YouTube URL: " ;;
    match extract_video_id url with
    | None => print "❌ Invalid YouTube URL"
    | Some video_id =>
        if String.eqb video_id "" then print "❌ Invalid YouTube URL"
        else
          print ("🎥 Video ID: " ++ video_id) ;;
          fetched <- fetch_or_report video_id ;;
          match fetched with
          | None => ret tt
          | Some transcript_text => index_and_ask transcript_text
          end
    end.

End Main.

(* ===================================================================== *)
(** ** Vocabulary of the further properties *)
(* ===================================================================== *)

(** Neither [/] nor [=]: a character that cannot be part of an anchor. *)
Definition no_anchor_char (c : ascii) : bool :=
  negb (Ascii.eqb c "/"%char) && negb (Ascii.eqb c "="%char).

(** None of [&], [?], [=]. *)
Definition plain_char (c : ascii) : bool :=
  negb (Ascii.eqb c "&"%char) && negb (Ascii.eqb c "?"%char)
  && negb (Ascii.eqb c "="%char).

(** The retriever cannot be reached. *)
Definition world_retriever_down : World :=
  {| ytt_fetch := fun _ _ => Ok Sample.snippets;
     create_documents := Sample.one_document_each;
     from_documents := Sample.store_of;
     retriever_invoke := fun _ _ => Raise (OtherError "APIConnectionError" "connection error");
     llm_invoke := Sample.fixed_reply |}.

(** Every video has its own transcript, which names the video. *)
Definition world_by_video : World :=
  {| ytt_fetch := fun vid _ =>
       Ok [ {| text := "transcript of " ++ vid; start := 0%float; duration := 2%float |} ];
     create_documents := Sample.one_document_each;
     from_documents := Sample.store_of;
     retriever_invoke := Sample.first_k;
     llm_invoke := Sample.fixed_reply |}.

(** The sessions that runs of the page can produce, whatever the outside
    world answers in each run. *)
Inductive reachable : SessionState -> Prop :=
| reach_fresh : reachable fresh_session
| reach_run w wd s : reachable s -> reachable (run w wd s).

(** A session that shows the chat has an index, and a stored index always
    has its chain. *)
Definition session_ok (s : SessionState) : Prop :=
  (indexed s = true -> rag_system s <> None)
  /\ (forall rag, rag_system s = Some rag -> chain rag <> None).

(** The object that the Process Video handler builds from the sliders. *)
Definition rag_of_widgets (wd : Widgets) : RAGSystem :=
  RAGSystem_init (w_chunk_size wd) (w_chunk_overlap wd) (k_retrieval wd)
                 (w_temperature wd).

(** The session after an attempt that indexed the video [vid] into [vs]. *)
Definition session_indexed (vid : string) (rag : RAGSystem) (s : SessionState)
  : SessionState :=
  set_chat_history [] (set_indexed true (set_rag_system (Some rag)
                                           (set_video_id (Some vid) s))).

(** The ways the [try] block of the handler can end. *)
Definition attempt_cases (w : World) (wd : Widgets) (s s' : SessionState)
           (r : result unit) : Prop :=
  (* no video id in the URL *)
  (extract_video_id (youtube_url wd) = None /\ s' = s /\ r = Raise StopException)
  \/ exists vid,
       extract_video_id (youtube_url wd) = Some vid
       /\ ((* the transcript could not be fetched *)
           (exists e, result_of (fetch_transcript w vid (set_video_id (Some vid) s)) = Raise e
                      /\ s' = set_video_id (Some vid) s /\ r = Raise e)
           \/ exists transcript,
                result_of (fetch_transcript w vid (set_video_id (Some vid) s)) = Ok transcript
                /\ ((* the index could not be built *)
                    (exists e, result_of (index_transcript w transcript (rag_of_widgets wd))
                               = Raise e
                               /\ s' = set_video_id (Some vid) s /\ r = Raise e)
                    \/ (* indexed *)
                       (result_of (index_transcript w transcript (rag_of_widgets wd)) = Ok tt
                        /\ s' = session_indexed vid
                                  (state_of (index_transcript w transcript (rag_of_widgets wd))) s
                        /\ r = Ok tt))).

(** The index, the flag and the video id of [s'] are those of [s]. *)
Definition same_video (s s' : SessionState) : Prop :=
  rag_system s' = rag_system s /\ indexed s' = indexed s
  /\ video_id s' = video_id s.

(** Runs of the page: a click on Clear Conversation, a run without the
    API key. *)
Definition click_clear : Widgets :=
  {| openai_api_key := true;
     youtube_url := Sample.first_url;
     w_chunk_size := 1000;
     w_chunk_overlap := 200;
     k_retrieval := 4;
     w_temperature := Sample.default_temperature;
     process_video_clicked := false;
     clear_conversation_clicked := true;
     question := None |}.

Definition click_process_without_key (url : string) : Widgets :=
  {| openai_api_key := false;
     youtube_url := url;
     w_chunk_size := 1000;
     w_chunk_overlap := 200;
     k_retrieval := 4;
     w_temperature := Sample.default_temperature;
     process_video_clicked := true;
     clear_conversation_clicked := false;
     question := None |}.

(** The questions passed to the retriever, in order. *)
Fixpoint retrieved (t : list event) : list string :=
  match t with
  | [] => []
  | ERetrieve _ q :: t' => q :: retrieved t'
  | _ :: t' => retrieved t'
  end.

(** The errors of the retriever and of the model are ordinary exceptions
    (subclasses of [Exception]). *)
Definition raises_exceptions (w : World) : Prop :=
  (forall r q e, retriever_invoke w r q = Raise e -> is_Exception e = true)
  /\ (forall m p e, llm_invoke w m p = Raise e -> is_Exception e = true).

(** String methods that are right on ASCII text, for concrete runs. *)
Module Ascii7.

Definition lower_char (c : ascii) : ascii :=
  if in_range "A"%char "Z"%char c then ascii_of_nat (nat_of_ascii c + 32) else c.

Fixpoint lower (s : string) : string :=
  match s with
  | EmptyString => EmptyString
  | String c s' => String (lower_char c) (lower s')
  end.

(** The ASCII characters that [str.strip] removes: the space, [\t] to
    [\r], and the separators [0x1c] to [0x1f]. *)
Definition is_space (c : ascii) : bool :=
  Ascii.eqb c " "%char || in_range (ascii_of_nat 9) (ascii_of_nat 13) c
  || in_range (ascii_of_nat 28) (ascii_of_nat 31) c.

Fixpoint lstrip (l : list ascii) : list ascii :=
  match l with
  | c :: l' => if is_space c then lstrip l' else l
  | [] => []
  end.

Definition strip (s : string) : string :=
  PyStr.of_chars (rev (lstrip (rev (lstrip (PyStr.chars s))))).

Definition builtins : Builtins :=
  {| str_lower := lower;
     str_strip := strip;
     str_prefix := fun n s => substring 0 n s |}.

End Ascii7.

(** The lines read as questions: those before the first quit word. *)
Fixpoint before_quit (py : Builtins) (stdin : list string) : list string :=
  match stdin with
  | [] => []
  | q :: rest => if is_quit py q then [] else q :: before_quit py rest
  end.

(** The lines left unread: those after the first quit word. *)
Fixpoint after_quit (py : Builtins) (stdin : list string) : list string :=
  match stdin with
  | [] => []
  | q :: rest => if is_quit py q then rest else after_quit py rest
  end.

(** The questions that are not blank. *)
Definition asked (py : Builtins) (questions : list string) : list string :=
  filter (fun q => negb (String.eqb (str_strip py q) "")) questions.

(** The object that [main] builds. *)
Definition main_rag : RAGSystem :=
  RAGSystem_init 1000 200 4 Sample.default_temperature.

(** The lengths of the texts, added up. *)
Definition total_length (texts : list string) : nat :=
  fold_right (fun x n => String.length x + n) 0 texts.

(* ===================================================================== *)
(** * Properties *)
(* ===================================================================== *)

(** ** Strings and character lists *)

Section StringFacts.
Local Open Scope list_scope.

Lemma chars_app (a b : string) :
  PyStr.chars (a ++ b)%string = PyStr.chars a ++ PyStr.chars b.
Proof.
  induction a as [|c a IH]; simpl; [reflexivity|].
  unfold PyStr.chars in *. simpl. now rewrite IH.
Qed.

Lemma of_chars_chars (s : string) : PyStr.of_chars (PyStr.chars s) = s.
Proof. apply string_of_list_ascii_of_string. Qed.

Lemma chars_of_chars (l : list ascii) : PyStr.chars (PyStr.of_chars l) = l.
Proof. apply list_ascii_of_string_of_list_ascii. Qed.

Lemma chars_length (s : string) : length (PyStr.chars s) = String.length s.
Proof.
  induction s as [|c s IH]; simpl; [reflexivity|].
  unfold PyStr.chars in *. simpl. now rewrite IH.
Qed.

Lemma chars_inj (a b : string) : PyStr.chars a = PyStr.chars b -> a = b.
Proof.
  intros H. rewrite <- (of_chars_chars a), <- (of_chars_chars b). now rewrite H.
Qed.
End StringFacts.

(** ** The matcher on the video-id pattern *)

Module ReFacts.
Import Re ReSpec.
Local Open Scope list_scope.

Lemma take_set_split p n : forall s t r,
  take_set p s n = Some (t, r) ->
  s = t ++ r /\ length t = n /\ Forall (fun c => p c = true) t.
Proof.
  induction n as [|n IH]; intros s t r H; simpl in H.
  - inversion H; subst. repeat split; constructor.
  - destruct s as [|c s]; [discriminate|].
    destruct (p c) eqn:Hc; [|discriminate].
    destruct (take_set p s n) as [[t' r']|] eqn:Ht; [|discriminate].
    inversion H; subst. destruct (IH _ _ _ Ht) as (-> & Hl & Hf).
    repeat split; simpl; auto.
Qed.

Lemma take_set_app p : forall t r,
  Forall (fun c => p c = true) t ->
  take_set p (t ++ r) (length t) = Some (t, r).
Proof.
  induction t as [|c t IH]; intros r H; simpl; [reflexivity|].
  inversion H; subst. rewrite H2, IH by assumption. reflexivity.
Qed.

(** [{n}] over a character set, whatever the continuation. *)
Lemma match_repeat_set {R} p n : forall s cap (k : list ascii -> capture -> option R),
  match_re (Repeat n (Set_ p)) s cap k =
  match take_set p s n with
  | Some (_, r) => k r cap
  | None => None
  end.
Proof.
  induction n as [|n IH]; intros s cap k; [reflexivity|].
  simpl. destruct s as [|c s]; [reflexivity|].
  destruct (p c); [|reflexivity].
  specialize (IH s cap k). simpl in IH. rewrite IH.
  destruct (take_set p s n) as [[t r]|]; reflexivity.
Qed.

Lemma length_take_rest p n : forall s t r,
  take_set p s n = Some (t, r) -> firstn (length s - length r) s = t.
Proof.
  intros s t r H. destruct (take_set_split _ _ _ _ _ H) as (-> & _ & _).
  rewrite length_app, Nat.add_sub.
  rewrite firstn_app, Nat.sub_diag, firstn_all. simpl. apply app_nil_r.
Qed.

Lemma match_token s :
  match_re (Cat (Group (Repeat 11 (Set_ id_char)))
                (Alt (Set_ amp_or_qmark) Dollar)) s None
           (fun _ cap => Some cap) = token_here s.
Proof.
  unfold token_here.
  change (match_re (Cat (Group (Repeat 11 (Set_ id_char)))
                        (Alt (Set_ amp_or_qmark) Dollar)) s None
                   (fun _ cap => Some cap))
    with (match_re (Repeat 11 (Set_ id_char)) s None
            (fun s' _ =>
               match_re (Alt (Set_ amp_or_qmark) Dollar) s'
                 (Some (firstn (length s - length s') s))
                 (fun _ cap => Some cap))).
  rewrite match_repeat_set.
  destruct (take_set id_char s 11) as [[t r]|] eqn:Ht; [|reflexivity].
  rewrite (length_take_rest _ _ _ _ _ Ht).
  destruct r as [|c r]; [reflexivity|].
  simpl. unfold ends_here. destruct (amp_or_qmark c); simpl; [reflexivity|].
  destruct r; [|reflexivity]. destruct (Ascii.eqb c PyStr.newline); reflexivity.
Qed.

Lemma match_cat {R} a b s cap (k : list ascii -> capture -> option R) :
  match_re (Cat a b) s cap k =
  match_re a s cap (fun s' cap' => match_re b s' cap' k).
Proof. reflexivity. Qed.

Lemma match_alt {R} a b s cap (k : list ascii -> capture -> option R) :
  match_re (Alt a b) s cap k =
  match match_re a s cap k with
  | Some res => Some res
  | None => match_re b s cap k
  end.
Proof. reflexivity. Qed.

Lemma match_lit {R} l s cap (k : list ascii -> capture -> option R) :
  match_re (Lit l) s cap k =
  if starts_with l s then k (skipn (length l) s) cap else None.
Proof. reflexivity. Qed.

Lemma starts_v_not_slash s :
  starts_with (PyStr.chars "v=") s = true ->
  starts_with (PyStr.chars "/") s = false.
Proof.
  destruct s as [|c s]; [discriminate|].
  unfold PyStr.chars. cbn [starts_with list_ascii_of_string].
  destruct (Ascii.eqb_spec "v"%char c) as [Hc|Hc]; [|discriminate].
  subst c. reflexivity.
Qed.

Lemma match_here_pattern s : match_here pattern s = here s.
Proof.
  unfold match_here, here, pattern.
  rewrite match_cat, match_alt, !match_lit.
  destruct (starts_with (PyStr.chars "v=") s) eqn:Hv.
  - rewrite (starts_v_not_slash _ Hv).
    change (length (PyStr.chars "v=")) with 2.
    rewrite match_token. now destruct (token_here (skipn 2 s)).
  - destruct (starts_with (PyStr.chars "/") s); [|reflexivity].
    change (length (PyStr.chars "/")) with 1.
    now rewrite match_token.
Qed.

(** *** Matching at one position, as a decomposition of the subject *)

Lemma starts_with_split l : forall s,
  starts_with l s = true -> s = l ++ skipn (length l) s.
Proof.
  induction l as [|a l IH]; intros s H; [reflexivity|].
  destruct s as [|b s]; [discriminate|]. simpl in H.
  apply andb_prop in H as [Hab Hl].
  apply Ascii.eqb_eq in Hab. subst b. simpl. f_equal. now apply IH.
Qed.

Lemma starts_with_app l r : starts_with l (l ++ r) = true.
Proof.
  induction l as [|a l IH]; [reflexivity|].
  simpl. now rewrite Ascii.eqb_refl, IH.
Qed.

Lemma skipn_length_app (l r : list ascii) : skipn (length l) (l ++ r) = r.
Proof. induction l; simpl; auto. Qed.

Lemma ends_here_iff rest : ends_here rest = true <-> ends_ok rest.
Proof.
  unfold ends_ok. destruct rest as [|c r]; simpl.
  - split; auto.
  - unfold amp_or_qmark. split.
    + intros H. apply orb_prop in H as [H|H].
      * right; left. exists c, r. split; [reflexivity|].
        apply orb_prop in H as [H|H]; apply Ascii.eqb_eq in H; auto.
      * destruct r; [|discriminate]. apply Ascii.eqb_eq in H. subst c. auto.
    + intros [H|[(c' & r' & H & Hc)|H]]; [discriminate| |].
      * inversion H; subst c' r'. apply orb_true_intro. left.
        destruct Hc as [->| ->]; reflexivity.
      * inversion H; subst. reflexivity.
Qed.

Lemma token_here_iff s cap :
  token_here s = Some cap <->
  exists t rest, cap = Some t /\ s = t ++ rest /\ length t = 11
                 /\ Forall (fun c => id_char c = true) t /\ ends_ok rest.
Proof.
  unfold token_here. split.
  - destruct (take_set id_char s 11) as [[t r]|] eqn:Ht; [|discriminate].
    destruct (ends_here r) eqn:He; [|discriminate].
    intros H; inversion H; subst cap.
    destruct (take_set_split _ _ _ _ _ Ht) as (Hs & Hl & Hf).
    exists t, r. repeat split; auto. now apply ends_here_iff.
  - intros (t & rest & -> & -> & Hl & Hf & He).
    rewrite <- Hl, take_set_app by assumption.
    apply ends_here_iff in He. now rewrite He.
Qed.

Lemma here_iff s cap :
  here s = Some cap <-> exists t, cap = Some t /\ token_at_head s t.
Proof.
  unfold here, token_at_head. split.
  - destruct (starts_with (PyStr.chars "v=") s) eqn:Hv.
    + intros H. apply token_here_iff in H as (t & rest & -> & Hs & Hl & Hf & He).
      exists t. split; [reflexivity|]. exists (PyStr.chars "v="), rest.
      rewrite <- Hs. repeat split; auto.
      now apply starts_with_split in Hv.
    + destruct (starts_with (PyStr.chars "/") s) eqn:Hs'; [|discriminate].
      intros H. apply token_here_iff in H as (t & rest & -> & Hs & Hl & Hf & He).
      exists t. split; [reflexivity|]. exists (PyStr.chars "/"), rest.
      rewrite <- Hs. repeat split; auto.
      now apply starts_with_split in Hs'.
  - intros (t & -> & a & rest & -> & Ha & Hl & Hf & He).
    assert (Ht : token_here (t ++ rest) = Some (Some t)).
    { apply token_here_iff. exists t, rest. repeat split; auto. }
    destruct Ha as [-> | ->].
    + rewrite starts_with_app.
      change 2 with (length (PyStr.chars "v=")). now rewrite skipn_length_app.
    + change (starts_with (PyStr.chars "v=") (PyStr.chars "/" ++ t ++ rest))
        with false. cbv iota.
      rewrite starts_with_app.
      change 1 with (length (PyStr.chars "/")). now rewrite skipn_length_app.
Qed.

(** *** Searching: the leftmost position that matches *)

Lemma search_none r : forall s,
  search r s = None <->
  (forall pre s', s = pre ++ s' -> match_here r s' = None).
Proof.
  induction s as [|c s IH]; simpl.
  - split.
    + destruct (match_here r []) eqn:H; [discriminate|].
      intros _ pre s' Hs. symmetry in Hs.
      apply app_eq_nil in Hs as [_ ->]. assumption.
    + intros H. now rewrite (H [] [] eq_refl).
  - split.
    + destruct (match_here r (c :: s)) eqn:H; [discriminate|].
      intros Hn pre s' Hs. destruct pre as [|c' pre]; simpl in Hs.
      * now subst s'.
      * inversion Hs; subst. apply (proj1 IH Hn pre s' eq_refl).
    + intros H. rewrite (H [] (c :: s) eq_refl).
      apply IH. intros pre s' ->. apply (H (c :: pre) s' eq_refl).
Qed.

Lemma search_some r : forall s m,
  search r s = Some m <->
  exists pre s',
    s = pre ++ s' /\ match_here r s' = Some m
    /\ forall pre1 s1, s = pre1 ++ s1 -> length pre1 < length pre ->
                       match_here r s1 = None.
Proof.
  induction s as [|c s IH]; intros m; simpl.
  - split.
    + destruct (match_here r []) eqn:H; [|discriminate].
      intros Hm; inversion Hm; subst. exists [], []. repeat split; auto.
      intros pre1 s1 _ Hl. inversion Hl.
    + intros (pre & s' & Hs & Hm & _). symmetry in Hs.
      apply app_eq_nil in Hs as [_ ->]. now rewrite Hm.
  - split.
    + destruct (match_here r (c :: s)) eqn:H.
      * intros Hm; inversion Hm; subst. exists [], (c :: s).
        repeat split; auto. intros pre1 s1 _ Hl. inversion Hl.
      * intros Hm. apply IH in Hm as (pre & s' & -> & Hm & Hfirst).
        exists (c :: pre), s'. repeat split; auto.
        intros pre1 s1 Hs Hl. destruct pre1 as [|c1 pre1]; simpl in Hs.
        -- now subst s1.
        -- inversion Hs; subst. apply (Hfirst pre1 s1 H2).
           simpl in Hl. lia.
    + intros (pre & s' & Hs & Hm & Hfirst).
      destruct pre as [|c' pre]; simpl in Hs.
      * subst s'. now rewrite Hm.
      * inversion Hs; subst c' s.
        rewrite (Hfirst [] (c :: pre ++ s') eq_refl) by (simpl; lia).
        apply IH. exists pre, s'. repeat split; auto.
        intros pre1 s1 Hs1 Hl.
        apply (Hfirst (c :: pre1) s1); simpl; [now rewrite Hs1 | lia].
Qed.

End ReFacts.

(** ** [extract_video_id] *)

(** Runs of [extract_video_id] on the documented forms and on strings
    without a token. *)
Example extract_watch :
  extract_video_id "https://www.youtube.com/watch?v=dQw4w9WgXcQ" = Some "dQw4w9WgXcQ".
Proof. vm_compute. reflexivity. Qed.

Example extract_short_with_query :
  extract_video_id "https://youtu.be/dQw4w9WgXcQ?t=42" = Some "dQw4w9WgXcQ".
Proof. vm_compute. reflexivity. Qed.

Example extract_embed :
  extract_video_id "https://www.youtube.com/embed/dQw4w9WgXcQ" = Some "dQw4w9WgXcQ".
Proof. vm_compute. reflexivity. Qed.

Example extract_watch_second_parameter :
  extract_video_id "https://www.youtube.com/watch?t=42&v=dQw4w9WgXcQ&list=PL"
  = Some "dQw4w9WgXcQ".
Proof. vm_compute. reflexivity. Qed.

Example extract_short_token_none :
  extract_video_id "https://www.youtube.com/watch?v=short" = None.
Proof. vm_compute. reflexivity. Qed.

Example extract_long_token_none :
  extract_video_id "https://www.youtube.com/embed/dQw4w9WgXcQ12" = None.
Proof. vm_compute. reflexivity. Qed.

Example extract_empty_none : extract_video_id "" = None.
Proof. vm_compute. reflexivity. Qed.

Module ExtractFacts.
Import Re ReSpec ReFacts.

Lemma of_chars_app (a b : list ascii) :
  PyStr.of_chars (a ++ b)%list = PyStr.of_chars a ++ PyStr.of_chars b.
Proof.
  apply chars_inj. now rewrite chars_app, !chars_of_chars.
Qed.

Lemma ends_token_chars rest : ends_token rest <-> ends_ok (PyStr.chars rest).
Proof.
  unfold ends_token, ends_strictly, ends_ok. split.
  - intros [[-> | (c & r & -> & Hc)] | ->]; auto.
    right; left. exists c, (PyStr.chars r). split; [reflexivity | exact Hc].
  - intros [H | [(c & r & H & Hc) | H]].
    + left; left. apply chars_inj. now rewrite H.
    + left; right. exists c, (PyStr.of_chars r). split; [|exact Hc].
      apply chars_inj. rewrite H. unfold PyStr.chars. simpl.
      f_equal. symmetry. apply chars_of_chars.
    + right. apply chars_inj. now rewrite H.
Qed.

Lemma is_anchor_chars a :
  is_anchor a <-> (PyStr.chars a = PyStr.chars "v=" \/ PyStr.chars a = PyStr.chars "/").
Proof.
  unfold is_anchor. split.
  - intros [-> | ->]; auto.
  - intros [H | H]; apply chars_inj in H; auto.
Qed.

(** Tokens of the string and matches of the pattern are the same thing. *)
Lemma token_at_chars url pre t :
  token_at ends_token url pre t <->
  exists s', PyStr.chars url = (PyStr.chars pre ++ s')%list
             /\ token_at_head s' (PyStr.chars t).
Proof.
  unfold token_at, token_at_head, is_video_id. split.
  - intros (a & rest & -> & Ha & (Hl & Hf) & He).
    exists (PyStr.chars (a ++ t ++ rest)). split; [apply chars_app|].
    exists (PyStr.chars a), (PyStr.chars rest).
    rewrite !chars_app, chars_length.
    repeat split; auto.
    + now apply is_anchor_chars.
    + now apply ends_token_chars.
  - intros (s' & Hu & a & rest & -> & Ha & Hl & Hf & He).
    exists (PyStr.of_chars a), (PyStr.of_chars rest). repeat split; auto.
    + apply chars_inj. now rewrite Hu, !chars_app, !chars_of_chars.
    + apply is_anchor_chars. now rewrite chars_of_chars.
    + now rewrite <- chars_length.
    + apply ends_token_chars. now rewrite chars_of_chars.
Qed.

Lemma length_of_chars l : String.length (PyStr.of_chars l) = length l.
Proof. now rewrite <- chars_length, chars_of_chars. Qed.

Lemma search_pattern_some url g :
  search pattern (PyStr.chars url) = Some g ->
  exists t, g = Some (PyStr.chars t) /\ first_token ends_token url t.
Proof.
  intros H. apply search_some in H as (pre & s' & Hu & Hm & Hfirst).
  rewrite match_here_pattern in Hm.
  apply here_iff in Hm as (t & -> & Ht).
  exists (PyStr.of_chars t). rewrite chars_of_chars. split; [reflexivity|].
  exists (PyStr.of_chars pre). split.
  - apply token_at_chars. exists s'. now rewrite !chars_of_chars.
  - intros pre' t' Ht'. apply token_at_chars in Ht' as (s1 & Hu1 & Ht1).
    rewrite length_of_chars, <- chars_length.
    destruct (Nat.le_gt_cases (length pre) (length (PyStr.chars pre')))
      as [Hle | Hgt]; [exact Hle|].
    specialize (Hfirst _ _ Hu1 Hgt). rewrite match_here_pattern in Hfirst.
    assert (Hs : here s1 = Some (Some (PyStr.chars t'))).
    { apply here_iff. eexists; split; [reflexivity | exact Ht1]. }
    congruence.
Qed.

Lemma first_token_search url t :
  first_token ends_token url t ->
  search pattern (PyStr.chars url) = Some (Some (PyStr.chars t)).
Proof.
  intros (pre & Ht & Hmin).
  apply token_at_chars in Ht as (s' & Hu & Ht).
  apply search_some. exists (PyStr.chars pre), s'. repeat split; auto.
  - rewrite match_here_pattern. apply here_iff.
    eexists; split; [reflexivity | exact Ht].
  - intros pre1 s1 Hu1 Hlt. rewrite match_here_pattern.
    destruct (here s1) as [cap|] eqn:Hh; [|reflexivity].
    apply here_iff in Hh as (g & -> & Hg).
    assert (Hat : token_at ends_token url (PyStr.of_chars pre1) (PyStr.of_chars g)).
    { apply token_at_chars. exists s1. now rewrite !chars_of_chars. }
    apply Hmin in Hat. rewrite length_of_chars, <- chars_length in Hat. lia.
Qed.

(** [extract_video_id] returns the token that starts first. *)
Lemma extract_some_iff url t :
  extract_video_id url = Some t <-> first_token ends_token url t.
Proof.
  unfold extract_video_id. split.
  - destruct (search pattern (PyStr.chars url)) as [g|] eqn:Hs; [|discriminate].
    apply search_pattern_some in Hs as (t' & -> & Ht').
    intros H; inversion H; subst. now rewrite of_chars_chars.
  - intros H. rewrite (first_token_search _ _ H). now rewrite of_chars_chars.
Qed.

(** It returns [None] exactly when the string has no token. *)
Lemma extract_none_iff url :
  extract_video_id url = None <-> ~ has_token ends_token url.
Proof.
  split.
  - intros Hn (pre & t & Ht).
    apply token_at_chars in Ht as (s' & Hu & Ht).
    unfold extract_video_id in Hn.
    destruct (search pattern (PyStr.chars url)) as [g|] eqn:Hs.
    + apply search_pattern_some in Hs as (t' & -> & _). discriminate.
    + assert (Hh : here s' = Some (Some (PyStr.chars t))).
      { apply here_iff. eexists; split; [reflexivity | exact Ht]. }
      rewrite <- match_here_pattern in Hh.
      rewrite (proj1 (search_none _ _) Hs _ _ Hu) in Hh. discriminate.
  - intros Hn. destruct (extract_video_id url) as [t|] eqn:He; [|reflexivity].
    exfalso. apply Hn. apply extract_some_iff in He as (pre & Ht & _).
    now exists pre, t.
Qed.

End ExtractFacts.

Module DocumentedForms.
Import Re ReSpec ReFacts ExtractFacts.

Lemma search_skip pre : forall s,
  none_within pre s = true ->
  search pattern (pre ++ s)%list = search pattern s.
Proof.
  induction pre as [|c pre IH]; intros s H; [reflexivity|].
  cbn [none_within] in H.
  destruct (here ((c :: pre) ++ s)%list) eqn:Hh; [discriminate|].
  cbn [app search]. rewrite match_here_pattern.
  change (c :: (pre ++ s)%list) with ((c :: pre) ++ s)%list.
  rewrite Hh. now apply IH.
Qed.

Lemma search_at_anchor a t rest :
  PyStr.chars a = PyStr.chars "v=" \/ PyStr.chars a = PyStr.chars "/" ->
  is_video_id t -> ends_token rest ->
  search pattern (PyStr.chars (a ++ t ++ rest)) = Some (Some (PyStr.chars t)).
Proof.
  intros Ha (Hl & Hf) He.
  assert (Hh : here (PyStr.chars (a ++ t ++ rest)) = Some (Some (PyStr.chars t))).
  { apply here_iff. eexists; split; [reflexivity|].
    exists (PyStr.chars a), (PyStr.chars rest). rewrite !chars_app, chars_length.
    repeat split; auto. now apply ends_token_chars. }
  rewrite <- match_here_pattern in Hh.
  destruct (PyStr.chars (a ++ t ++ rest)); cbn [search]; now rewrite Hh.
Qed.

Lemma extract_after pre a t rest :
  is_anchor a ->
  (forall s, none_within (PyStr.chars pre) (PyStr.chars a ++ s)%list = true) ->
  is_video_id t -> ends_token rest ->
  extract_video_id (pre ++ a ++ t ++ rest) = Some t.
Proof.
  intros Ha Hpre Ht He. unfold extract_video_id.
  rewrite chars_app, search_skip.
  - rewrite search_at_anchor; auto.
    + now rewrite of_chars_chars.
    + now apply is_anchor_chars.
  - rewrite chars_app. apply Hpre.
Qed.

Lemma extract_watch_form t rest :
  is_video_id t -> ends_token rest ->
  extract_video_id ("https://www.youtube.com/watch?v=" ++ t ++ rest) = Some t.
Proof.
  intros Ht He.
  apply (extract_after "https://www.youtube.com/watch?" "v=" t rest);
    [now left | intros s; vm_compute; reflexivity | assumption | assumption].
Qed.

Lemma extract_short_form t rest :
  is_video_id t -> ends_token rest ->
  extract_video_id ("https://youtu.be/" ++ t ++ rest) = Some t.
Proof.
  intros Ht He.
  apply (extract_after "https://youtu.be" "/" t rest);
    [now right | intros s; vm_compute; reflexivity | assumption | assumption].
Qed.

Lemma extract_embed_form t rest :
  is_video_id t -> ends_token rest ->
  extract_video_id ("https://www.youtube.com/embed/" ++ t ++ rest) = Some t.
Proof.
  intros Ht He.
  apply (extract_after "https://www.youtube.com/embed" "/" t rest);
    [now right | intros s; vm_compute; reflexivity | assumption | assumption].
Qed.

End DocumentedForms.

Lemma dQw4w9WgXcQ_is_video_id : is_video_id "dQw4w9WgXcQ".
Proof. split; [reflexivity | repeat constructor]. Qed.

(** C5: the claim fails at a URL that has no token followed by [&], [?] or
    the end of the string: the token of [url_trailing_newline] is followed
    by a newline, and [extract_video_id] returns it, not null. *)
Lemma extract_video_id_trailing_newline :
  ~ has_token ends_strictly url_trailing_newline
  /\ extract_video_id url_trailing_newline = Some "dQw4w9WgXcQ".
Proof.
  split; [|vm_compute; reflexivity].
  intros (pre & t & a & rest & Hu & _ & (Hl & Hf) & He).
  apply (f_equal PyStr.chars) in Hu. rewrite !chars_app in Hu.
  destruct He as [-> | (c & r & -> & Hc)].
  - (* the token would end the string, which ends with a newline *)
    change (PyStr.chars "") with (@nil ascii) in Hu. rewrite app_nil_r in Hu.
    apply (f_equal (@rev ascii)) in Hu. rewrite !rev_app_distr in Hu.
    rewrite <- chars_length in Hl.
    destruct (rev (PyStr.chars t)) as [|x xs] eqn:Hr.
    + apply (f_equal (@length ascii)) in Hr. rewrite length_rev, Hl in Hr.
      discriminate.
    + assert (Hin : In x (PyStr.chars t)).
      { apply in_rev. rewrite Hr. now left. }
      rewrite Forall_forall in Hf. apply Hf in Hin.
      vm_compute in Hu. inversion Hu; subst x. discriminate.
  - (* the string has neither [&] nor [?] *)
    assert (Hin : In c (PyStr.chars url_trailing_newline)).
    { rewrite Hu. apply in_or_app; right. apply in_or_app; right.
      apply in_or_app; right. now left. }
    assert (Hno : forallb (fun x => negb (amp_or_qmark x))
                          (PyStr.chars url_trailing_newline) = true)
      by (vm_compute; reflexivity).
    rewrite forallb_forall in Hno. apply Hno in Hin.
    destruct Hc as [-> | ->]; discriminate.
Qed.

(** C5 (amended): for the three documented URL forms, with an 11-character
    token of [[0-9A-Za-z_-]] followed by [&], [?], the end of the string or
    a newline that ends the string, [extract_video_id] returns that token;
    in general it returns the token that starts first, and it returns null
    (it never raises) exactly when the string has no such token; on
    [https://www.youtube.com/watch?v=dQw4w9WgXcQ] it returns [dQw4w9WgXcQ]. *)
Theorem extract_video_id_first_token :
  (forall t rest, is_video_id t -> ends_token rest ->
     extract_video_id ("https://www.youtube.com/watch?v=" ++ t ++ rest) = Some t
     /\ extract_video_id ("https://youtu.be/" ++ t ++ rest) = Some t
     /\ extract_video_id ("https://www.youtube.com/embed/" ++ t ++ rest) = Some t)
  /\ (forall url t, extract_video_id url = Some t <-> first_token ends_token url t)
  /\ (forall url, extract_video_id url = None <-> ~ has_token ends_token url)
  /\ extract_video_id "https://www.youtube.com/watch?v=dQw4w9WgXcQ"
     = Some "dQw4w9WgXcQ".
Proof.
  split; [|split; [|split]].
  - intros t rest Ht He. repeat split.
    + now apply DocumentedForms.extract_watch_form.
    + now apply DocumentedForms.extract_short_form.
    + now apply DocumentedForms.extract_embed_form.
  - apply ExtractFacts.extract_some_iff.
  - apply ExtractFacts.extract_none_iff.
  - vm_compute. reflexivity.
Qed.

Lemma extract_video_id_first_token_witness :
  is_video_id "dQw4w9WgXcQ" /\ ends_token "&t=42"
  /\ extract_video_id ("https://www.youtube.com/embed/" ++ "dQw4w9WgXcQ" ++ "&t=42")
     = Some "dQw4w9WgXcQ".
Proof.
  pose proof dQw4w9WgXcQ_is_video_id as Hid.
  assert (He : ends_token "&t=42").
  { left; right. exists "&"%char, "t=42". split; [reflexivity | now left]. }
  split; [exact Hid | split; [exact He |]].
  apply (proj1 extract_video_id_first_token "dQw4w9WgXcQ" "&t=42" Hid He).
Defined.

(** ** [fetch_transcript] *)

Section FetchFacts.
Context {S : Type}.
Variable w : World.
Variable vid : string.
Variable s : S.

Ltac run_fetch :=
  unfold fetch_transcript, ytt_api_fetch, bind, try_except, call, print, emit,
    ret, raise, events_of, state_of, result_of,
    first_languages, fallback_languages in *.

(** The run when the request for ["en"] succeeds. *)
Lemma fetch_transcript_en_ok snippets :
  ytt_fetch w vid first_languages = Ok snippets ->
  fetch_transcript w vid s =
  ([EFetch vid first_languages; EPrint msg_extracted], s,
   Ok (PyStr.join " " (map text snippets))).
Proof. run_fetch. intros ->. reflexivity. Qed.

(** The run when it fails with anything but [NoTranscriptFound]. *)
Lemma fetch_transcript_en_other e :
  ytt_fetch w vid first_languages = Raise e ->
  is_NoTranscriptFound e = false ->
  fetch_transcript w vid s = ([EFetch vid first_languages], s, Raise e).
Proof. run_fetch. intros -> ->. reflexivity. Qed.

(** The runs through the fallback. *)
Lemma fetch_transcript_fallback_ok m snippets :
  ytt_fetch w vid first_languages = Raise (NoTranscriptFound m) ->
  ytt_fetch w vid fallback_languages = Ok snippets ->
  fetch_transcript w vid s =
  ([EFetch vid first_languages; EPrint msg_no_english;
    EFetch vid fallback_languages; EPrint msg_extracted], s,
   Ok (PyStr.join " " (map text snippets))).
Proof. run_fetch. intros -> ->. reflexivity. Qed.

Lemma fetch_transcript_fallback_fails m e :
  ytt_fetch w vid first_languages = Raise (NoTranscriptFound m) ->
  ytt_fetch w vid fallback_languages = Raise e ->
  is_Exception e = true ->
  fetch_transcript w vid s =
  ([EFetch vid first_languages; EPrint msg_no_english;
    EFetch vid fallback_languages], s,
   Raise (RuntimeError (msg_not_available ++ str e))).
Proof. run_fetch. intros -> -> He. simpl. rewrite He. reflexivity. Qed.

Lemma fetch_transcript_fallback_uncaught m e :
  ytt_fetch w vid first_languages = Raise (NoTranscriptFound m) ->
  ytt_fetch w vid fallback_languages = Raise e ->
  is_Exception e = false ->
  fetch_transcript w vid s =
  ([EFetch vid first_languages; EPrint msg_no_english;
    EFetch vid fallback_languages], s, Raise e).
Proof. run_fetch. intros -> -> He. simpl. rewrite He. reflexivity. Qed.

Lemma is_NoTranscriptFound_inv e :
  is_NoTranscriptFound e = true -> exists m, e = NoTranscriptFound m.
Proof. destruct e; try discriminate. eauto. Qed.

(** The state is never touched. *)
Lemma fetch_transcript_state : state_of (fetch_transcript w vid s) = s.
Proof.
  destruct (ytt_fetch w vid first_languages) as [sn|e] eqn:H1.
  - now rewrite (fetch_transcript_en_ok _ H1).
  - destruct (is_NoTranscriptFound e) eqn:Hn.
    + apply is_NoTranscriptFound_inv in Hn as [m ->].
      destruct (ytt_fetch w vid fallback_languages) as [sn|e2] eqn:H2.
      * now rewrite (fetch_transcript_fallback_ok _ _ H1 H2).
      * destruct (is_Exception e2) eqn:He.
        -- now rewrite (fetch_transcript_fallback_fails _ _ H1 H2 He).
        -- now rewrite (fetch_transcript_fallback_uncaught _ _ H1 H2 He).
    + now rewrite (fetch_transcript_en_other _ H1 Hn).
Qed.

(** Through the fallback there are two requests, whatever comes back. *)
Lemma fetch_transcript_en_then_fallback_calls m :
  ytt_fetch w vid first_languages = Raise (NoTranscriptFound m) ->
  exists t, events_of (fetch_transcript w vid s) = t
            /\ fetch_calls t = [(vid, first_languages); (vid, fallback_languages)].
Proof.
  intros H1.
  destruct (ytt_fetch w vid fallback_languages) as [sn|e2] eqn:H2.
  - rewrite (fetch_transcript_fallback_ok _ _ H1 H2). eauto.
  - destruct (is_Exception e2) eqn:He.
    + rewrite (fetch_transcript_fallback_fails _ _ H1 H2 He). eauto.
    + rewrite (fetch_transcript_fallback_uncaught _ _ H1 H2 He). eauto.
Qed.

End FetchFacts.

Lemma join_space_separated texts : PyStr.join " " texts = space_separated texts.
Proof.
  destruct texts as [|a l]; [reflexivity|].
  revert a. induction l as [|b l IH]; intros a; simpl.
  - clear. induction a; simpl; congruence.
  - specialize (IH b). simpl in IH. unfold space_separated in IH.
    rewrite IH. reflexivity.
Qed.

(** C6: the first request asks for ["en"]; when that raises
    [NoTranscriptFound] there is exactly one more request, for the combined
    list ["auto", "hi", "en"]; and when that one fails too, the call raises
    one [RuntimeError] whose message carries the text of the failure,
    instead of the provider's error. *)
Theorem fetch_transcript_en_then_fallback {S : Type} (w : World) (vid : string) (s : S) :
  (exists rest, events_of (fetch_transcript w vid s) = EFetch vid ["en"] :: rest)
  /\ (forall snippets, ytt_fetch w vid ["en"] = Ok snippets ->
        fetch_calls (events_of (fetch_transcript w vid s)) = [(vid, ["en"])])
  /\ (forall m, ytt_fetch w vid ["en"] = Raise (NoTranscriptFound m) ->
        fetch_calls (events_of (fetch_transcript w vid s))
        = [(vid, ["en"]); (vid, ["auto"; "hi"; "en"])]
        /\ forall e, ytt_fetch w vid ["auto"; "hi"; "en"] = Raise e ->
                     is_Exception e = true ->
                     result_of (fetch_transcript w vid s)
                     = Raise (RuntimeError (msg_not_available ++ str e))).
Proof.
  split; [|split].
  - destruct (ytt_fetch w vid first_languages) as [sn|e] eqn:H1.
    + rewrite (fetch_transcript_en_ok w vid s _ H1); unfold events_of; simpl; eauto.
    + destruct (is_NoTranscriptFound e) eqn:Hn.
      * apply is_NoTranscriptFound_inv in Hn as [m ->].
        destruct (ytt_fetch w vid fallback_languages) as [sn|e2] eqn:H2.
        -- rewrite (fetch_transcript_fallback_ok w vid s _ _ H1 H2); unfold events_of; simpl; eauto.
        -- destruct (is_Exception e2) eqn:He.
           ++ rewrite (fetch_transcript_fallback_fails w vid s _ _ H1 H2 He); unfold events_of; simpl; eauto.
           ++ rewrite (fetch_transcript_fallback_uncaught w vid s _ _ H1 H2 He); unfold events_of; simpl; eauto.
      * rewrite (fetch_transcript_en_other w vid s _ H1 Hn); unfold events_of; simpl; eauto.
  - intros sn H1. now rewrite (fetch_transcript_en_ok w vid s _ H1).
  - intros m H1. split.
    + destruct (fetch_transcript_en_then_fallback_calls w vid s m H1)
        as (t & -> & Ht). exact Ht.
    + intros e H2 He.
      now rewrite (fetch_transcript_fallback_fails w vid s _ _ H1 H2 He).
Qed.

(** C10: when the request for ["en"] fails with an error that is not
    [NoTranscriptFound], that same error reaches the caller and no other
    request is made; the fallback list is requested exactly when the first
    request raised [NoTranscriptFound]. *)
Theorem fetch_transcript_other_error_propagates {S : Type} (w : World) (vid : string) (s : S) :
  (forall e, ytt_fetch w vid ["en"] = Raise e ->
             is_NoTranscriptFound e = false ->
             fetch_transcript w vid s = ([EFetch vid ["en"]], s, Raise e))
  /\ (In (vid, ["auto"; "hi"; "en"])
         (fetch_calls (events_of (fetch_transcript w vid s)))
      <-> exists m, ytt_fetch w vid ["en"] = Raise (NoTranscriptFound m)).
Proof.
  split.
  - intros e H1 Hn. exact (fetch_transcript_en_other w vid s _ H1 Hn).
  - split.
    + destruct (ytt_fetch w vid first_languages) as [sn|e] eqn:H1.
      * rewrite (fetch_transcript_en_ok w vid s _ H1). simpl.
        intros [H|[]]. inversion H.
      * destruct (is_NoTranscriptFound e) eqn:Hn.
        -- apply is_NoTranscriptFound_inv in Hn as [m ->]. intros _.
           exists m. exact H1.
        -- rewrite (fetch_transcript_en_other w vid s _ H1 Hn). simpl.
           intros [H|[]]. inversion H.
    + intros [m H1].
      destruct (fetch_transcript_en_then_fallback_calls w vid s m H1)
        as (t & -> & Ht).
      rewrite Ht. right. now left.
Qed.

Lemma fetch_transcript_en_then_fallback_witness :
  ytt_fetch Sample.world_no_transcript "dQw4w9WgXcQ" ["en"] = Raise Sample.no_transcript
  /\ ytt_fetch Sample.world_no_transcript "dQw4w9WgXcQ" ["auto"; "hi"; "en"]
     = Raise Sample.no_transcript
  /\ fetch_calls (events_of (fetch_transcript Sample.world_no_transcript "dQw4w9WgXcQ" tt))
     = [("dQw4w9WgXcQ", ["en"]); ("dQw4w9WgXcQ", ["auto"; "hi"; "en"])]
  /\ result_of (fetch_transcript Sample.world_no_transcript "dQw4w9WgXcQ" tt)
     = Raise (RuntimeError (msg_not_available ++ str Sample.no_transcript)).
Proof.
  split; [reflexivity | split; [reflexivity |]].
  destruct (fetch_transcript_en_then_fallback Sample.world_no_transcript
              "dQw4w9WgXcQ" tt) as (_ & _ & H).
  destruct (H _ eq_refl) as [Hcalls Hres].
  split; [exact Hcalls | exact (Hres _ eq_refl eq_refl)].
Defined.

Lemma fetch_transcript_other_error_propagates_witness :
  ytt_fetch Sample.world_offline "dQw4w9WgXcQ" ["en"] = Raise Sample.connection_error
  /\ is_NoTranscriptFound Sample.connection_error = false
  /\ fetch_transcript Sample.world_offline "dQw4w9WgXcQ" tt
     = ([EFetch "dQw4w9WgXcQ" ["en"]], tt, Raise Sample.connection_error).
Proof.
  split; [reflexivity | split; [reflexivity |]].
  exact (proj1 (fetch_transcript_other_error_propagates Sample.world_offline
                  "dQw4w9WgXcQ" tt) _ eq_refl eq_refl).
Defined.

(** C8: whenever [fetch_transcript] returns a text, it is the texts of the
    snippets of the request that succeeded, in the order received, joined
    by single spaces; and it returns whenever one of the two requests
    succeeds. *)
Theorem fetch_transcript_joins_snippets {S : Type} (w : World) (vid : string) (s : S) :
  (forall txt, result_of (fetch_transcript w vid s) = Ok txt ->
     exists snippets,
       (ytt_fetch w vid ["en"] = Ok snippets
        \/ ((exists m, ytt_fetch w vid ["en"] = Raise (NoTranscriptFound m))
            /\ ytt_fetch w vid ["auto"; "hi"; "en"] = Ok snippets))
       /\ txt = PyStr.join " " (map text snippets)
       /\ txt = space_separated (map text snippets))
  /\ (forall snippets, ytt_fetch w vid ["en"] = Ok snippets ->
        result_of (fetch_transcript w vid s) = Ok (space_separated (map text snippets)))
  /\ (forall m snippets,
        ytt_fetch w vid ["en"] = Raise (NoTranscriptFound m) ->
        ytt_fetch w vid ["auto"; "hi"; "en"] = Ok snippets ->
        result_of (fetch_transcript w vid s) = Ok (space_separated (map text snippets))).
Proof.
  split; [|split].
  - intros txt.
    destruct (ytt_fetch w vid first_languages) as [sn|e] eqn:H1.
    + rewrite (fetch_transcript_en_ok w vid s _ H1). unfold result_of; simpl.
      intros H; inversion H; subst. exists sn.
      split; [now left | split; [reflexivity | apply join_space_separated]].
    + destruct (is_NoTranscriptFound e) eqn:Hn.
      * apply is_NoTranscriptFound_inv in Hn as [m ->].
        destruct (ytt_fetch w vid fallback_languages) as [sn|e2] eqn:H2.
        -- rewrite (fetch_transcript_fallback_ok w vid s _ _ H1 H2).
           unfold result_of; simpl.
           intros H; inversion H; subst. exists sn.
           split; [right; eauto | split; [reflexivity | apply join_space_separated]].
        -- destruct (is_Exception e2) eqn:He.
           ++ now rewrite (fetch_transcript_fallback_fails w vid s _ _ H1 H2 He).
           ++ now rewrite (fetch_transcript_fallback_uncaught w vid s _ _ H1 H2 He).
      * now rewrite (fetch_transcript_en_other w vid s _ H1 Hn).
  - intros sn H1. rewrite (fetch_transcript_en_ok w vid s _ H1).
    unfold result_of; simpl. now rewrite join_space_separated.
  - intros m sn H1 H2. rewrite (fetch_transcript_fallback_ok w vid s _ _ H1 H2).
    unfold result_of; simpl. now rewrite join_space_separated.
Qed.

Lemma fetch_transcript_joins_snippets_witness :
  result_of (fetch_transcript Sample.world_fallback "dQw4w9WgXcQ" tt)
  = Ok "never gonna give you up"
  /\ exists snippets,
       (ytt_fetch Sample.world_fallback "dQw4w9WgXcQ" ["en"] = Ok snippets
        \/ ((exists m, ytt_fetch Sample.world_fallback "dQw4w9WgXcQ" ["en"]
                       = Raise (NoTranscriptFound m))
            /\ ytt_fetch Sample.world_fallback "dQw4w9WgXcQ" ["auto"; "hi"; "en"]
               = Ok snippets))
       /\ "never gonna give you up" = PyStr.join " " (map text snippets)
       /\ "never gonna give you up" = space_separated (map text snippets).
Proof.
  split; [reflexivity|].
  exact (proj1 (fetch_transcript_joins_snippets Sample.world_fallback
                  "dQw4w9WgXcQ" tt) "never gonna give you up" eq_refl).
Defined.

(** ** [RAGSystem] *)

Section RagFacts.
Variable w : World.

Lemma prompt_template_fields :
  prompt_template
  = prompt_before_context ++ "{context}" ++ prompt_before_question
    ++ "{question}" ++ prompt_after_question.
Proof. reflexivity. Qed.

Lemma format_prompt_template context q :
  format {| template := prompt_template;
            input_variables := ["context"; "question"] |}
         [("context", context); ("question", q)]
  = Ok (filled_prompt context q).
Proof. vm_compute. reflexivity. Qed.

Lemma format_docs_blank_lines docs :
  _format_docs docs = blank_line_separated (map page_content docs).
Proof.
  unfold _format_docs. destruct docs as [|a l]; [reflexivity|].
  revert a. induction l as [|b l IH]; intros a; simpl.
  - clear. induction (page_content a); simpl; congruence.
  - specialize (IH b). simpl in IH. unfold blank_line_separated in IH.
    rewrite IH. reflexivity.
Qed.

Lemma index_transcript_fails rag transcript e :
  from_documents w (chunks_of w rag transcript) (embeddings_model rag) = Raise e ->
  index_transcript w transcript rag
  = ([EPrint (msg_created (length (chunks_of w rag transcript)));
      EEmbed (map page_content (chunks_of w rag transcript))], rag, Raise e).
Proof.
  unfold index_transcript, chunks_of, bind, get, call, print, emit.
  intros ->. reflexivity.
Qed.

Lemma index_transcript_succeeds rag transcript vs :
  from_documents w (chunks_of w rag transcript) (embeddings_model rag) = Ok vs ->
  index_transcript w transcript rag
  = ([EPrint (msg_created (length (chunks_of w rag transcript)));
      EEmbed (map page_content (chunks_of w rag transcript));
      EPrint "✅ Indexing complete!"], indexed_with vs rag, Ok tt).
Proof.
  unfold index_transcript, _build_chain, chunks_of, bind, get, call, print,
    emit, modify.
  intros ->. reflexivity.
Qed.

(** A failed [index_transcript] leaves the object as it was. *)
Lemma index_transcript_failed_state rag transcript e :
  result_of (index_transcript w transcript rag) = Raise e ->
  state_of (index_transcript w transcript rag) = rag.
Proof.
  destruct (from_documents w (chunks_of w rag transcript) (embeddings_model rag))
    as [vs|e'] eqn:H.
  - rewrite (index_transcript_succeeds _ _ _ H). discriminate.
  - now rewrite (index_transcript_fails _ _ _ H).
Qed.

(** [query] never changes the object. *)
Lemma query_state rag q : state_of (query w q rag) = rag.
Proof.
  unfold query, chain_invoke, bind, get, call, raise, state_of.
  simpl. destruct (chain rag) as [c|]; [|reflexivity].
  destruct (retriever_invoke w (c_retriever c) q); [|reflexivity].
  simpl. destruct (format (c_prompt c) _); reflexivity.
Qed.

Lemma never_indexed_chain rag : never_indexed w rag -> chain rag = None.
Proof.
  induction 1 as [| rag transcript e _ IH He | rag q _ IH].
  - reflexivity.
  - now rewrite (index_transcript_failed_state _ _ _ He).
  - now rewrite query_state.
Qed.

End RagFacts.

(** C1: on an object on which no [index_transcript] call has succeeded,
    every [query] call raises the not-indexed [RuntimeError]; it returns no
    answer and calls neither the retriever nor the model. *)
Theorem query_before_indexing_fails (w : World) (rag : RAGSystem) (q : string) :
  never_indexed w rag ->
  query w q rag
  = ([], rag, Raise (RuntimeError "System not indexed yet. Call index_transcript() first.")).
Proof.
  intros H. apply never_indexed_chain in H.
  unfold query, bind, get, raise. simpl. rewrite H. reflexivity.
Qed.

Lemma query_before_indexing_fails_witness :
  never_indexed Sample.world_no_embeddings Sample.rag_after_failed_index
  /\ query Sample.world_no_embeddings "What is the video about?"
           Sample.rag_after_failed_index
     = ([], Sample.rag_after_failed_index,
        Raise (RuntimeError "System not indexed yet. Call index_transcript() first.")).
Proof.
  assert (H : never_indexed Sample.world_no_embeddings Sample.rag_after_failed_index).
  { unfold Sample.rag_after_failed_index.
    eapply ni_index_failed; [apply ni_init | reflexivity]. }
  split; [exact H|].
  exact (query_before_indexing_fails Sample.world_no_embeddings _
           "What is the video about?" H).
Defined.

(** C9: on an object indexed by [index_transcript], a query sends the
    question to the retriever configured with [k], joins the texts of the
    retrieved documents in the order retrieved with a blank line between
    them, and sends the model the template with that context and the
    question in its two fields; the reply of the model is the answer. *)
Theorem query_prompt_assembly (w : World) (cs co kk : nat) (t : float)
        (transcript : string) (events : list event) (rag : RAGSystem)
        (q : string) (docs : list Document) :
  index_transcript w transcript (RAGSystem_init cs co kk t) = (events, rag, Ok tt) ->
  (forall r, retriever rag = Some r -> retriever_invoke w r q = Ok docs) ->
  let context := PyStr.join (PyStr.nl ++ PyStr.nl) (map page_content docs) in
  context = blank_line_separated (map page_content docs)
  /\ prompt_template
     = prompt_before_context ++ "{context}" ++ prompt_before_question
       ++ "{question}" ++ prompt_after_question
  /\ query w q rag
     = ([ERetrieve kk q; ELlm "gpt-4o-mini" (filled_prompt context q)], rag,
        llm_invoke w {| llm_model := "gpt-4o-mini"; llm_temperature := t |}
                   (filled_prompt context q)).
Proof.
  intros Hidx Hret context.
  split; [apply format_docs_blank_lines | split; [reflexivity|]].
  set (rag0 := RAGSystem_init cs co kk t) in *.
  destruct (from_documents w (chunks_of w rag0 transcript) (embeddings_model rag0))
    as [vs|e] eqn:Hfd.
  - rewrite (index_transcript_succeeds w _ _ _ Hfd) in Hidx.
    inversion Hidx; subst rag. clear Hidx.
    specialize (Hret _ eq_refl).
    unfold query, chain_invoke, bind, get, call.
    cbn [indexed_with set_chain set_retriever set_vector_store chain retriever
         c_retriever c_prompt c_llm prompt llm k r_k RAGSystem_init rag0] in *.
    rewrite Hret. cbv iota beta.
    rewrite format_prompt_template. reflexivity.
  - rewrite (index_transcript_fails w _ _ _ Hfd) in Hidx. discriminate.
Qed.

(** ** Reasoning about runs: the state and result a computation ends in *)

Module Hoare.

Section Rules.
Context {S : Type}.

Lemma ends_weaken {A} (m : M S A) s (Q Q' : S -> result A -> Prop) :
  ends_in m s Q -> (forall s' r, Q s' r -> Q' s' r) -> ends_in m s Q'.
Proof. unfold ends_in. auto. Qed.

Lemma ends_ret {A} (a : A) (s : S) (Q : S -> result A -> Prop) :
  Q s (Ok a) -> ends_in (ret a) s Q.
Proof. auto. Qed.

Lemma ends_raise {A} (e : exn) (s : S) (Q : S -> result A -> Prop) :
  Q s (Raise e) -> ends_in (raise e) s Q.
Proof. auto. Qed.

Lemma ends_modify (f : S -> S) (s : S) (Q : S -> result unit -> Prop) :
  Q (f s) (Ok tt) -> ends_in (modify f) s Q.
Proof. auto. Qed.

Lemma ends_emit (ev : event) (s : S) (Q : S -> result unit -> Prop) :
  Q s (Ok tt) -> ends_in (emit ev) s Q.
Proof. auto. Qed.

Lemma ends_get (s : S) (Q : S -> result S -> Prop) :
  Q s (Ok s) -> ends_in get s Q.
Proof. auto. Qed.

Lemma ends_bind {A B} (m : M S A) (f : A -> M S B) s
      (Q : S -> result B -> Prop) :
  ends_in m s (fun s1 r =>
              match r with
              | Ok a => ends_in (f a) s1 Q
              | Raise e => Q s1 (Raise e)
              end) ->
  ends_in (bind m f) s Q.
Proof.
  unfold ends_in, bind, state_of, result_of.
  destruct (m s) as [[t s1] [a|e]]; simpl; [|auto].
  destruct (f a s1) as [[t' s2] r]; auto.
Qed.

Lemma ends_try_except {A} (body : M S A) (handles : exn -> bool)
      (handler : exn -> M S A) (s : S)
      (Q : S -> result A -> Prop) :
  ends_in body s (fun s1 r =>
                 match r with
                 | Ok a => Q s1 (Ok a)
                 | Raise e =>
                     if handles e then ends_in (handler e) s1 Q
                     else Q s1 (Raise e)
                 end) ->
  ends_in (try_except body handles handler) s Q.
Proof.
  unfold ends_in, try_except, state_of, result_of.
  destruct (body s) as [[t s1] [a|e]]; simpl; [auto|].
  destruct (handles e); [|auto].
  destruct (handler e s1) as [[t' s2] r]; auto.
Qed.

Lemma ends_on_local {O A} (o : O) (m : M O A) (s : S)
      (Q : S -> result (O * A) -> Prop) :
  ends_in m o (fun o' r =>
              match r with
              | Ok a => Q s (Ok (o', a))
              | Raise e => Q s (Raise e)
              end) ->
  ends_in (on_local o m) s Q.
Proof.
  unfold ends_in, on_local, state_of, result_of.
  destruct (m o) as [[t o'] [a|e]]; auto.
Qed.
End Rules.

End Hoare.

(** ** The Process Video handler *)

Section AppFacts.
Variable w : World.
Import Hoare.

Lemma fetch_transcript_ends {S} vid (s : S) (Q : S -> result string -> Prop) :
  Q s (result_of (fetch_transcript w vid s)) ->
  ends_in (fetch_transcript w vid) s Q.
Proof. unfold ends_in. now rewrite fetch_transcript_state. Qed.

Lemma index_transcript_ends transcript rag (Q : RAGSystem -> result unit -> Prop) :
  (forall vs, from_documents w (chunks_of w rag transcript) (embeddings_model rag) = Ok vs ->
              Q (indexed_with vs rag) (Ok tt)) ->
  (forall e, from_documents w (chunks_of w rag transcript) (embeddings_model rag) = Raise e ->
             Q rag (Raise e)) ->
  ends_in (index_transcript w transcript) rag Q.
Proof.
  intros Hok Hfail. unfold ends_in.
  destruct (from_documents w (chunks_of w rag transcript) (embeddings_model rag))
    as [vs|e] eqn:H.
  - rewrite (index_transcript_succeeds _ _ _ _ H). now apply Hok.
  - rewrite (index_transcript_fails _ _ _ _ H). now apply Hfail.
Qed.

Lemma invalid_url_ends (s : SessionState) (Q : SessionState -> result string -> Prop) :
  Q s (Raise StopException) -> ends_in invalid_url s Q.
Proof. auto. Qed.

Lemma process_attempt_ends wd s :
  ends_in (process_attempt w wd) s (attempt_post s).
Proof.
  unfold process_attempt. apply ends_bind.
  destruct (extract_video_id (youtube_url wd)) as [v|];
    [destruct (String.eqb v "")|];
    try (apply invalid_url_ends; now repeat split).
  (* a video id: store it, fetch, index, store the index *)
  apply ends_ret.
  apply ends_bind, ends_modify.
  apply ends_bind, ends_emit.
  apply ends_bind, fetch_transcript_ends.
  destruct (result_of (fetch_transcript w v (set_video_id (Some v) s)))
    as [txt|e]; [|now repeat split].
  apply ends_bind, ends_emit.
  apply ends_bind, ends_on_local, index_transcript_ends.
  - intros vs _.
    do 3 apply ends_bind, ends_modify.
    apply ends_emit. simpl. repeat split.
    eexists. split; [reflexivity | discriminate].
  - intros e _. now repeat split.
Qed.

Lemma process_failed_ends e s (Q : SessionState -> result unit -> Prop) :
  Q (set_indexed false s) (Ok tt) -> ends_in (process_failed e) s Q.
Proof.
  intros H. unfold process_failed.
  apply ends_bind, ends_emit. now apply ends_modify.
Qed.

(** The handler as a whole, read off the outcome of its [try] block. *)
Lemma process_video_ends wd s :
  youtube_url wd <> "" ->
  state_of (process_video w wd s) =
  match result_of (process_attempt w wd s) with
  | Ok _ => state_of (process_attempt w wd s)
  | Raise e =>
      if is_Exception e then set_indexed false (state_of (process_attempt w wd s))
      else state_of (process_attempt w wd s)
  end.
Proof.
  intros Hurl. unfold process_video.
  destruct (String.eqb_spec (youtube_url wd) ""); [contradiction|].
  unfold try_except, process_failed, bind, st, emit, modify, state_of, result_of.
  destruct (process_attempt w wd s) as [[t s1] [a|e]]; simpl; [reflexivity|].
  destruct (is_Exception e); reflexivity.
Qed.

Lemma process_video_empty_url wd s :
  youtube_url wd = "" -> state_of (process_video w wd s) = s.
Proof. intros H. unfold process_video. rewrite H. reflexivity. Qed.

End AppFacts.

(** Runs of the whole page. *)
Example first_run_indexes :
  run Sample.world_up (Sample.click_process Sample.first_url) fresh_session
  = {| rag_system := Some (indexed_with
                             {| vs_documents := [ {| page_content := "never gonna give you up" |} ];
                                vs_vectors := [[0%float]] |} Sample.new_rag);
       indexed := true;
       video_id := Some "dQw4w9WgXcQ";
       chat_history := [] |}.
Proof. reflexivity. Qed.

Example invalid_url_run_changes_nothing :
  run Sample.world_up (Sample.click_process "https://example.com/") Sample.ready_session
  = Sample.ready_session.
Proof. reflexivity. Qed.

Example failed_run_hides_the_chat :
  run Sample.world_no_transcript (Sample.click_process Sample.second_url)
      Sample.ready_session
  = set_indexed false (set_video_id (Some "9bZkp7q19f0") Sample.ready_session).
Proof. reflexivity. Qed.

Example second_run_replaces_index_and_history :
  chat_history (run Sample.world_up (Sample.click_process Sample.second_url)
                    Sample.ready_session) = []
  /\ video_id (run Sample.world_up (Sample.click_process Sample.second_url)
                   Sample.ready_session) = Some "9bZkp7q19f0".
Proof. split; reflexivity. Qed.

Example ready_session_is_ready :
  indexed Sample.ready_session = true
  /\ video_id Sample.ready_session = Some "dQw4w9WgXcQ"
  /\ chat_history Sample.ready_session
     = [("What is the video about?", "It is a song.")]
  /\ exists rag, rag_system Sample.ready_session = Some rag /\ chain rag <> None.
Proof.
  repeat split. eexists. split; [reflexivity | discriminate].
Qed.

(** C2: the claim fails where a video is indexed and the transcript of the
    next one cannot be fetched: the attempt fails and the session is not
    what it was, it is marked as not indexed (and shows the new video id),
    so the old conversation is no longer offered. *)
Lemma failed_indexing_changes_session :
  result_of (process_attempt Sample.world_no_transcript
               (Sample.click_process Sample.second_url) Sample.ready_session)
  = Raise (RuntimeError (msg_not_available ++ str Sample.no_transcript))
  /\ indexed Sample.ready_session = true
  /\ indexed (state_of (process_video Sample.world_no_transcript
                          (Sample.click_process Sample.second_url)
                          Sample.ready_session)) = false
  /\ state_of (process_video Sample.world_no_transcript
                 (Sample.click_process Sample.second_url) Sample.ready_session)
     <> Sample.ready_session.
Proof.
  repeat split.
  intros H. apply (f_equal indexed) in H. discriminate H.
Qed.

Lemma query_prompt_assembly_witness :
  query Sample.world_two_chunks "What is the video about?" Sample.rag_two_chunks
  = ([ERetrieve 4 "What is the video about?";
      ELlm "gpt-4o-mini"
           (filled_prompt Sample.two_chunks_context "What is the video about?")],
     Sample.rag_two_chunks, Ok "It is a song.").
Proof.
  refine (proj2 (proj2 (query_prompt_assembly Sample.world_two_chunks
            1000 200 4 Sample.default_temperature "never gonna give you up"
            (events_of (index_transcript Sample.world_two_chunks
                          "never gonna give you up" Sample.new_rag))
            Sample.rag_two_chunks "What is the video about?"
            [ {| page_content := "never gonna" |};
              {| page_content := "give you up" |} ] eq_refl _))).
  intros r Hr. vm_compute in Hr. inversion Hr; subst r. reflexivity.
Defined.

(* ===================================================================== *)
(** * Further properties *)
(* ===================================================================== *)

(** ** [extract_video_id]: what it accepts and what it rejects *)

Module ExtractMore.
Import Re ReSpec ReFacts ExtractFacts DocumentedForms.
Local Open Scope list_scope.

Lemma id_char_no_anchor c : id_char c = true -> no_anchor_char c = true.
Proof.
  intros H. unfold no_anchor_char.
  destruct (Ascii.eqb_spec c "/"%char) as [-> | _]; [discriminate|].
  destruct (Ascii.eqb_spec c "="%char) as [-> | _]; [discriminate|].
  reflexivity.
Qed.

Lemma id_char_not_end c : id_char c = true -> amp_or_qmark c = false /\ c <> PyStr.newline.
Proof.
  intros H. split.
  - unfold amp_or_qmark.
    destruct (Ascii.eqb_spec c "&"%char) as [-> | _]; [discriminate|].
    destruct (Ascii.eqb_spec c "?"%char) as [-> | _]; [discriminate|].
    reflexivity.
  - intros ->. discriminate.
Qed.

(** Without [/] and [=] no position can start a match. *)
Lemma here_no_anchor s :
  forallb no_anchor_char s = true -> here s = None.
Proof.
  intros H. unfold here.
  destruct (starts_with (PyStr.chars "v=") s) eqn:Hv.
  - apply starts_with_split in Hv. rewrite Hv in H.
    vm_compute in H. discriminate.
  - destruct (starts_with (PyStr.chars "/") s) eqn:Hs; [|reflexivity].
    apply starts_with_split in Hs. rewrite Hs in H.
    vm_compute in H. discriminate.
Qed.

Lemma search_no_anchor : forall s,
  forallb no_anchor_char s = true -> search pattern s = None.
Proof.
  induction s as [|c s IH]; intros H.
  - reflexivity.
  - cbn [search]. rewrite match_here_pattern, (here_no_anchor _ H).
    apply IH. simpl in H. now apply andb_prop in H as [_ H].
Qed.

(** After a [/], a run of plain characters and then the next [/] never
    leave eleven characters of the set followed by an accepted ending. *)
Lemma take_set_before_slash T : forall n p t r,
  forallb plain_char p = true ->
  take_set id_char (p ++ "/"%char :: T) n = Some (t, r) ->
  ends_here r = false.
Proof.
  induction n as [|n IH]; intros p t r Hp H.
  - simpl in H. inversion H; subst. destruct p as [|c p]; simpl.
    + destruct T; reflexivity.
    + simpl in Hp. apply andb_prop in Hp as [Hc _].
      assert (Ha : amp_or_qmark c = false).
      { unfold plain_char in Hc. unfold amp_or_qmark.
        destruct (Ascii.eqb c "&"%char); [discriminate|].
        destruct (Ascii.eqb c "?"%char); [discriminate|]. reflexivity. }
      rewrite Ha. simpl. destruct p; reflexivity.
  - destruct p as [|c p]; [discriminate|].
    cbn [app take_set] in H.
    destruct (id_char c); [|discriminate].
    destruct (take_set id_char (p ++ "/"%char :: T) n) as [[t' r']|] eqn:Ht;
      [|discriminate].
    inversion H; subst. simpl in Hp. apply andb_prop in Hp as [_ Hp].
    exact (IH _ _ _ Hp Ht).
Qed.

Lemma here_before_slash T c p :
  forallb plain_char (c :: p) = true ->
  here ((c :: p) ++ "/"%char :: T) = None.
Proof.
  intros Hp. unfold here.
  destruct (starts_with (PyStr.chars "v=") ((c :: p) ++ "/"%char :: T)) eqn:Hv.
  - exfalso. unfold PyStr.chars in Hv.
    destruct p as [|d p]; cbn [app starts_with list_ascii_of_string] in Hv;
      apply andb_prop in Hv as [_ Hv]; apply andb_prop in Hv as [Hd _].
    + discriminate.
    + apply Ascii.eqb_eq in Hd. subst d.
      cbn [forallb] in Hp. apply andb_prop in Hp as [_ Hp].
      apply andb_prop in Hp as [Hd _]. discriminate.
  - destruct (starts_with (PyStr.chars "/") ((c :: p) ++ "/"%char :: T)) eqn:Hs;
      [|reflexivity].
    cbn [app skipn]. unfold token_here.
    destruct (take_set id_char (p ++ "/"%char :: T) 11) as [[t r]|] eqn:Ht;
      [|reflexivity].
    simpl in Hp. apply andb_prop in Hp as [_ Hp].
    now rewrite (take_set_before_slash _ _ _ _ _ Hp Ht).
Qed.

Lemma none_within_plain T : forall pre,
  forallb plain_char pre = true -> none_within pre ("/"%char :: T) = true.
Proof.
  induction pre as [|c pre IH]; intros Hp; [reflexivity|].
  cbn [none_within]. rewrite (here_before_slash T c pre Hp).
  apply IH. simpl in Hp. now apply andb_prop in Hp as [_ Hp].
Qed.

End ExtractMore.

(** X1: the host and the path before the token are not checked: after any
    prefix without [&], [?] and [=], a [/] followed by an 11-character
    token with an accepted ending yields that token. *)
Theorem extract_video_id_any_prefix (pre t rest : string) :
  forallb plain_char (PyStr.chars pre) = true ->
  is_video_id t -> ends_token rest ->
  extract_video_id (pre ++ "/" ++ t ++ rest) = Some t.
Proof.
  intros Hp Ht He.
  apply DocumentedForms.extract_after; auto.
  - now right.
  - intros s. now apply ExtractMore.none_within_plain.
Qed.

Lemma extract_video_id_any_prefix_witness :
  extract_video_id ("http://m.youtube.com/shorts" ++ "/" ++ "dQw4w9WgXcQ" ++ "?feature=share")
  = Some "dQw4w9WgXcQ".
Proof.
  apply extract_video_id_any_prefix.
  - vm_compute. reflexivity.
  - exact dQw4w9WgXcQ_is_video_id.
  - left; right. exists "?"%char, "feature=share". split; [reflexivity | now right].
Defined.

(** X2: a string without [/] and without [=] has no video id; in
    particular a bare id given instead of a URL is rejected. *)
Theorem extract_video_id_needs_anchor (url : string) :
  forallb no_anchor_char (PyStr.chars url) = true ->
  extract_video_id url = None.
Proof.
  intros H. unfold extract_video_id.
  now rewrite (ExtractMore.search_no_anchor _ H).
Qed.

Lemma extract_video_id_needs_anchor_witness :
  extract_video_id "dQw4w9WgXcQ" = None.
Proof.
  apply extract_video_id_needs_anchor. vm_compute. reflexivity.
Defined.

(** X3: an extracted id survives the trip through the canonical URLs: the
    watch URL and the short URL built from it give the same id back. *)
Theorem extract_video_id_round_trip (url t : string) :
  extract_video_id url = Some t ->
  extract_video_id ("https://www.youtube.com/watch?v=" ++ t) = Some t
  /\ extract_video_id ("https://youtu.be/" ++ t) = Some t.
Proof.
  intros H. apply ExtractFacts.extract_some_iff in H as (pre & (a & rest & _ & _ & Ht & _) & _).
  assert (He : ends_token "") by (left; now left).
  assert (Ht0 : (t ++ "")%string = t).
  { clear. induction t; simpl; congruence. }
  split.
  - rewrite <- Ht0 at 1. now apply DocumentedForms.extract_watch_form.
  - rewrite <- Ht0 at 1. now apply DocumentedForms.extract_short_form.
Qed.

Lemma extract_video_id_round_trip_witness :
  extract_video_id "https://www.youtube.com/embed/dQw4w9WgXcQ?start=5" = Some "dQw4w9WgXcQ"
  /\ extract_video_id ("https://www.youtube.com/watch?v=" ++ "dQw4w9WgXcQ") = Some "dQw4w9WgXcQ"
  /\ extract_video_id ("https://youtu.be/" ++ "dQw4w9WgXcQ") = Some "dQw4w9WgXcQ".
Proof.
  split; [vm_compute; reflexivity|].
  apply (extract_video_id_round_trip
           "https://www.youtube.com/embed/dQw4w9WgXcQ?start=5" "dQw4w9WgXcQ").
  vm_compute. reflexivity.
Defined.

Module ExtractLong.
Import Re ReSpec ReFacts ExtractFacts DocumentedForms ExtractMore.
Local Open Scope list_scope.

Lemma forallb_id_no_anchor l :
  Forall (fun c => id_char c = true) l -> forallb no_anchor_char l = true.
Proof.
  induction 1 as [|c l Hc _ IH]; [reflexivity|].
  simpl. now rewrite (id_char_no_anchor _ Hc), IH.
Qed.

Lemma ends_here_id_char c r : id_char c = true -> ends_here (c :: r) = false.
Proof.
  intros Hc. destruct (id_char_not_end _ Hc) as [Ha Hn].
  unfold ends_here. rewrite Ha. destruct r; [|reflexivity].
  simpl. destruct (Ascii.eqb_spec c PyStr.newline); [contradiction | reflexivity].
Qed.

(** A token that runs on for more than eleven characters matches nowhere. *)
Lemma search_long_token t more :
  length t = 11 ->
  Forall (fun c => id_char c = true) t ->
  Forall (fun c => id_char c = true) more -> more <> [] ->
  search pattern ("/"%char :: t ++ more) = None.
Proof.
  intros Hl Ht Hm Hne.
  cbn [search]. rewrite match_here_pattern.
  assert (Hh : here ("/"%char :: t ++ more) = None).
  { unfold here.
    change (starts_with (PyStr.chars "v=") ("/"%char :: t ++ more)) with false.
    change (starts_with (PyStr.chars "/") ("/"%char :: t ++ more)) with true.
    cbn [skipn]. unfold token_here.
    rewrite <- Hl, take_set_app by assumption.
    destruct more as [|c r]; [contradiction|].
    inversion Hm; subst. now rewrite ends_here_id_char. }
  rewrite Hh. apply search_no_anchor, forallb_id_no_anchor.
  apply Forall_app. now split.
Qed.

End ExtractLong.

(** X4: a token longer than eleven characters is rejected, not cut to
    eleven: after a prefix without [&], [?] and [=], a [/] followed by
    twelve or more characters of the set up to the end yields null. *)
Theorem extract_video_id_rejects_longer (pre t more : string) :
  forallb plain_char (PyStr.chars pre) = true ->
  is_video_id t ->
  more <> "" -> Forall (fun c => id_char c = true) (PyStr.chars more) ->
  extract_video_id (pre ++ "/" ++ t ++ more) = None.
Proof.
  intros Hp (Hl & Ht) Hne Hm. unfold extract_video_id.
  rewrite !chars_app.
  change (PyStr.chars "/") with ["/"%char]. cbn [app].
  rewrite DocumentedForms.search_skip
    by now apply ExtractMore.none_within_plain.
  rewrite ExtractLong.search_long_token; auto.
  - now rewrite chars_length.
  - intros H. apply Hne. apply chars_inj. now rewrite H.
Qed.

Lemma extract_video_id_rejects_longer_witness :
  extract_video_id ("https://youtu.be" ++ "/" ++ "dQw4w9WgXcQ" ++ "12") = None.
Proof.
  apply extract_video_id_rejects_longer.
  - vm_compute. reflexivity.
  - exact dQw4w9WgXcQ_is_video_id.
  - discriminate.
  - repeat constructor.
Defined.

(** ** [RAGSystem]: indexing and querying *)

(** X5: a failed [index_transcript] is all-or-nothing: the object is left
    exactly as it was, with no vector store, retriever or chain half set,
    and the error is the one of building the vector store, unwrapped. *)
Theorem index_transcript_failure_atomic (w : World) (rag : RAGSystem)
        (transcript : string) (e : exn) :
  result_of (index_transcript w transcript rag) = Raise e ->
  state_of (index_transcript w transcript rag) = rag
  /\ from_documents w (create_documents w (splitter rag) [transcript])
                    (embeddings_model rag) = Raise e.
Proof.
  intros H.
  destruct (from_documents w (chunks_of w rag transcript) (embeddings_model rag))
    as [vs|e'] eqn:Hfd.
  - rewrite (index_transcript_succeeds w _ _ _ Hfd) in H. discriminate.
  - rewrite (index_transcript_fails w _ _ _ Hfd) in *.
    unfold result_of, state_of in *. simpl in *. inversion H; subst.
    split; [reflexivity | exact Hfd].
Qed.

Lemma index_transcript_failure_atomic_witness :
  state_of (index_transcript Sample.world_no_embeddings "never gonna give you up"
              Sample.rag_two_chunks) = Sample.rag_two_chunks
  /\ from_documents Sample.world_no_embeddings
       (create_documents Sample.world_no_embeddings (splitter Sample.rag_two_chunks)
          ["never gonna give you up"])
       (embeddings_model Sample.rag_two_chunks)
     = Raise (OtherError "AuthenticationError" "invalid api key").
Proof.
  exact (index_transcript_failure_atomic Sample.world_no_embeddings
           Sample.rag_two_chunks "never gonna give you up" _ eq_refl).
Defined.

(** X6: a successful [index_transcript] sets the vector store, a
    similarity retriever over that store with the configured [k], and a
    chain over that retriever with the object's own prompt and model; the
    settings of the object are not touched. *)
Theorem index_transcript_success_fields (w : World) (rag : RAGSystem)
        (transcript : string) :
  result_of (index_transcript w transcript rag) = Ok tt ->
  exists vs,
    from_documents w (create_documents w (splitter rag) [transcript])
                   (embeddings_model rag) = Ok vs
    /\ vector_store (state_of (index_transcript w transcript rag)) = Some vs
    /\ retriever (state_of (index_transcript w transcript rag))
       = Some {| r_store := vs; r_search_type := "similarity"; r_k := k rag |}
    /\ chain (state_of (index_transcript w transcript rag))
       = Some {| c_retriever := {| r_store := vs; r_search_type := "similarity";
                                   r_k := k rag |};
                 c_prompt := prompt rag; c_llm := llm rag |}
    /\ chunk_size (state_of (index_transcript w transcript rag)) = chunk_size rag
    /\ chunk_overlap (state_of (index_transcript w transcript rag)) = chunk_overlap rag
    /\ k (state_of (index_transcript w transcript rag)) = k rag
    /\ temperature (state_of (index_transcript w transcript rag)) = temperature rag
    /\ splitter (state_of (index_transcript w transcript rag)) = splitter rag
    /\ embeddings_model (state_of (index_transcript w transcript rag))
       = embeddings_model rag
    /\ llm (state_of (index_transcript w transcript rag)) = llm rag
    /\ prompt (state_of (index_transcript w transcript rag)) = prompt rag.
Proof.
  intros H.
  destruct (from_documents w (chunks_of w rag transcript) (embeddings_model rag))
    as [vs|e'] eqn:Hfd.
  - exists vs. rewrite (index_transcript_succeeds w _ _ _ Hfd).
    split; [exact Hfd|]. repeat split.
  - rewrite (index_transcript_fails w _ _ _ Hfd) in H. discriminate.
Qed.

Lemma index_transcript_success_fields_witness :
  exists vs,
    from_documents Sample.world_up
      (create_documents Sample.world_up (splitter Sample.new_rag)
         ["never gonna give you up"]) (embeddings_model Sample.new_rag) = Ok vs
    /\ retriever (state_of (index_transcript Sample.world_up
                              "never gonna give you up" Sample.new_rag))
       = Some {| r_store := vs; r_search_type := "similarity"; r_k := 4 |}.
Proof.
  destruct (index_transcript_success_fields Sample.world_up Sample.new_rag
              "never gonna give you up" eq_refl)
    as (vs & Hfd & _ & Hr & _).
  exists vs. split; [exact Hfd | exact Hr].
Defined.

(** X7: indexing again forgets the earlier index: on an object that was
    indexed before, [index_transcript] makes the same calls and ends with
    the same result as on the object before it was indexed, leaves the same
    object when it succeeds, and keeps the earlier index when it fails. *)
Theorem index_transcript_again (w : World) (rag : RAGSystem) (first second : string) :
  result_of (index_transcript w first rag) = Ok tt ->
  events_of (index_transcript w second (state_of (index_transcript w first rag)))
  = events_of (index_transcript w second rag)
  /\ result_of (index_transcript w second (state_of (index_transcript w first rag)))
     = result_of (index_transcript w second rag)
  /\ (result_of (index_transcript w second rag) = Ok tt ->
      state_of (index_transcript w second (state_of (index_transcript w first rag)))
      = state_of (index_transcript w second rag))
  /\ (forall e, result_of (index_transcript w second rag) = Raise e ->
      state_of (index_transcript w second (state_of (index_transcript w first rag)))
      = state_of (index_transcript w first rag)).
Proof.
  intros H1.
  destruct (from_documents w (chunks_of w rag first) (embeddings_model rag))
    as [vs1|e1] eqn:Hfd1;
    [|rewrite (index_transcript_fails w _ _ _ Hfd1) in H1; discriminate].
  assert (Hst : state_of (index_transcript w first rag) = indexed_with vs1 rag)
    by now rewrite (index_transcript_succeeds w _ _ _ Hfd1).
  rewrite Hst. clear Hst H1.
  destruct (from_documents w (chunks_of w rag second) (embeddings_model rag))
    as [vs2|e2] eqn:Hfd2.
  - assert (Hfd2' : from_documents w (chunks_of w (indexed_with vs1 rag) second)
                      (embeddings_model (indexed_with vs1 rag)) = Ok vs2)
      by exact Hfd2.
    rewrite (index_transcript_succeeds w _ _ _ Hfd2),
            (index_transcript_succeeds w _ _ _ Hfd2').
    split; [|split; [|split]]; try reflexivity.
    intros e He. discriminate He.
  - assert (Hfd2' : from_documents w (chunks_of w (indexed_with vs1 rag) second)
                      (embeddings_model (indexed_with vs1 rag)) = Raise e2)
      by exact Hfd2.
    rewrite (index_transcript_fails w _ _ _ Hfd2),
            (index_transcript_fails w _ _ _ Hfd2').
    split; [|split; [|split]]; try reflexivity.
    intros He. discriminate He.
Qed.

Lemma index_transcript_again_witness :
  state_of (index_transcript Sample.world_up "give you up"
              (state_of (index_transcript Sample.world_up "never gonna" Sample.new_rag)))
  = state_of (index_transcript Sample.world_up "give you up" Sample.new_rag).
Proof.
  exact (proj1 (proj2 (proj2 (index_transcript_again Sample.world_up Sample.new_rag
                                "never gonna" "give you up" eq_refl))) eq_refl).
Defined.

(** X8: when the retriever fails, [query] raises that error as it is and
    the model is never called. *)
Theorem query_retriever_failure (w : World) (rag : RAGSystem) (c : Chain)
        (q : string) (e : exn) :
  chain rag = Some c ->
  retriever_invoke w (c_retriever c) q = Raise e ->
  query w q rag = ([ERetrieve (r_k (c_retriever c)) q], rag, Raise e).
Proof.
  intros Hc Hr. unfold query, chain_invoke, bind, get, call. simpl.
  rewrite Hc. cbv beta iota. rewrite Hr. reflexivity.
Qed.

(** X9: [query] only reads the object, and it calls the outside at most
    twice: nothing when there is no chain; else the retriever once with
    the question, and after it the model once with the filled prompt,
    exactly when the retrieval and the filling of the prompt succeed. *)
Theorem query_read_only (w : World) (rag : RAGSystem) (q : string) :
  state_of (query w q rag) = rag
  /\ (chain rag = None -> events_of (query w q rag) = [])
  /\ (forall c, chain rag = Some c ->
      (forall e, retriever_invoke w (c_retriever c) q = Raise e ->
                 events_of (query w q rag) = [ERetrieve (r_k (c_retriever c)) q])
      /\ (forall docs,
            retriever_invoke w (c_retriever c) q = Ok docs ->
            (forall filled,
                format (c_prompt c) [("context", _format_docs docs); ("question", q)]
                = Ok filled ->
                events_of (query w q rag)
                = [ERetrieve (r_k (c_retriever c)) q;
                   ELlm (llm_model (c_llm c)) filled])
            /\ (forall e,
                  format (c_prompt c) [("context", _format_docs docs); ("question", q)]
                  = Raise e ->
                  events_of (query w q rag) = [ERetrieve (r_k (c_retriever c)) q]))).
Proof.
  split; [apply query_state|].
  unfold query, chain_invoke, bind, get, call, raise, events_of. simpl.
  split.
  - intros ->. reflexivity.
  - intros c ->. cbv beta iota. split.
    + intros e ->. reflexivity.
    + intros docs ->. cbv beta iota. split.
      * intros filled ->. reflexivity.
      * intros e ->. reflexivity.
Qed.

Lemma query_read_only_witness :
  state_of (query Sample.world_two_chunks "Who sings?" Sample.rag_two_chunks)
  = Sample.rag_two_chunks
  /\ events_of (query Sample.world_two_chunks "Who sings?" Sample.rag_two_chunks)
     = [ERetrieve 4 "Who sings?";
        ELlm "gpt-4o-mini" (filled_prompt Sample.two_chunks_context "Who sings?")]
  /\ events_of (query world_retriever_down "Who sings?" Sample.rag_two_chunks)
     = [ERetrieve 4 "Who sings?"]
  /\ events_of (query Sample.world_two_chunks "Who sings?" Sample.new_rag) = [].
Proof.
  pose (c := {| c_retriever :=
                  {| r_store :=
                       {| vs_documents := [ {| page_content := "never gonna" |};
                                            {| page_content := "give you up" |} ];
                          vs_vectors := [[0%float]; [0%float]] |};
                     r_search_type := "similarity"; r_k := 4 |};
                c_prompt := prompt Sample.new_rag;
                c_llm := llm Sample.new_rag |}).
  split; [|split; [|split]].
  - exact (proj1 (query_read_only Sample.world_two_chunks Sample.rag_two_chunks
                    "Who sings?")).
  - refine (proj1 (proj2 (proj2 (proj2 (query_read_only Sample.world_two_chunks
                                          Sample.rag_two_chunks "Who sings?"))
                                 c eq_refl)
                          [ {| page_content := "never gonna" |};
                            {| page_content := "give you up" |} ] eq_refl) _ _).
    vm_compute. reflexivity.
  - exact (proj1 (proj2 (proj2 (query_read_only world_retriever_down
                                  Sample.rag_two_chunks "Who sings?")) c eq_refl)
             _ eq_refl).
  - exact (proj1 (proj2 (query_read_only Sample.world_two_chunks Sample.new_rag
                           "Who sings?")) eq_refl).
Defined.

(** Runs of [format] on templates with braces. *)
Example format_escaped_braces :
  format {| template := "{{{question}}}"; input_variables := ["question"] |}
         [("question", "why?")] = Ok "{why?}".
Proof. reflexivity. Qed.

Example format_single_brace :
  format {| template := "a}b"; input_variables := [] |} []
  = Raise (OtherError "ValueError" "Single '}' encountered in format string").
Proof. reflexivity. Qed.

Example format_missing_key :
  format {| template := "{context}"; input_variables := ["context"] |}
         [("question", "why?")] = Raise (OtherError "KeyError" "'context'").
Proof. reflexivity. Qed.

Lemma query_retriever_failure_witness :
  query world_retriever_down "What is the video about?"
        (state_of (index_transcript world_retriever_down "never gonna give you up"
                     Sample.new_rag))
  = ([ERetrieve 4 "What is the video about?"],
     state_of (index_transcript world_retriever_down "never gonna give you up"
                 Sample.new_rag),
     Raise (OtherError "APIConnectionError" "connection error")).
Proof.
  exact (query_retriever_failure world_retriever_down
           (state_of (index_transcript world_retriever_down "never gonna give you up"
                        Sample.new_rag))
           {| c_retriever :=
                {| r_store :=
                     {| vs_documents := [ {| page_content := "never gonna give you up" |} ];
                        vs_vectors := [[0%float]] |};
                   r_search_type := "similarity"; r_k := 4 |};
              c_prompt := prompt Sample.new_rag;
              c_llm := llm Sample.new_rag |}
           "What is the video about?" _ eq_refl eq_refl).
Defined.

(** ** The page: what a run can do to the session *)

Section PageFacts.
Variable w : World.
Import Hoare.

Lemma extract_some_nonempty url v :
  extract_video_id url = Some v -> String.eqb v "" = false /\ url <> "".
Proof.
  intros H. split.
  - apply ExtractFacts.extract_some_iff in H
      as (pre & (a & rest & _ & _ & (Hl & _) & _) & _).
    destruct v; [discriminate | reflexivity].
  - intros ->. discriminate.
Qed.

(** Every way the [try] block can end, with the session it leaves. *)
Lemma process_attempt_cases wd s :
  ends_in (process_attempt w wd) s (attempt_cases w wd s).
Proof.
  unfold process_attempt. apply ends_bind.
  destruct (extract_video_id (youtube_url wd)) as [v|] eqn:Hx;
    [|apply invalid_url_ends; left; auto].
  destruct (extract_some_nonempty _ _ Hx) as [Hv _]. rewrite Hv.
  apply ends_ret.
  apply ends_bind, ends_modify.
  apply ends_bind, ends_emit.
  apply ends_bind, fetch_transcript_ends.
  destruct (result_of (fetch_transcript w v (set_video_id (Some v) s)))
    as [txt|e] eqn:Hf.
  - apply ends_bind, ends_emit.
    apply ends_bind, ends_on_local. unfold ends_in.
    fold (rag_of_widgets wd).
    destruct (result_of (index_transcript w txt (rag_of_widgets wd)))
      as [[]|e] eqn:Hi.
    + do 3 apply ends_bind, ends_modify. apply ends_emit.
      right. exists v. split; [exact Hx|]. right. exists txt.
      split; [exact Hf|]. right. rewrite Hi. auto.
    + right. exists v. split; [exact Hx|]. right. exists txt.
      split; [exact Hf|]. left. exists e. rewrite Hi. auto.
  - right. exists v. split; [exact Hx|]. left. exists e. auto.
Qed.

(** A property of the session that every step keeps is kept by a
    sequence, and by a [try] with its handler. *)
Lemma ends_bind_keeps {A B} (I : SessionState -> Prop)
      (m : M SessionState A) (f : A -> M SessionState B) s :
  ends_in m s (fun s1 _ => I s1) ->
  (forall a s1, I s1 -> ends_in (f a) s1 (fun s2 _ => I s2)) ->
  ends_in (bind m f) s (fun s2 _ => I s2).
Proof.
  intros Hm Hf. apply ends_bind. unfold ends_in in *.
  destruct (result_of (m s)); auto.
Qed.

Lemma ends_try_keeps {A} (I : SessionState -> Prop)
      (body : M SessionState A) handles handler s :
  ends_in body s (fun s1 _ => I s1) ->
  (forall e s1, I s1 -> ends_in (handler e) s1 (fun s2 _ => I s2)) ->
  ends_in (try_except body handles handler) s (fun s2 _ => I s2).
Proof.
  intros Hb Hh. apply ends_try_except. unfold ends_in in *.
  destruct (result_of (body s)) as [a|e]; [exact Hb|].
  destruct (handles e); auto.
Qed.

Lemma show_history_run h : forall s,
  state_of (show_history h s) = s /\ result_of (show_history h s) = Ok tt.
Proof.
  induction h as [|[q a] h IH]; intros s; [split; reflexivity|].
  cbn [show_history]. unfold bind, st, emit, state_of, result_of in *. simpl.
  specialize (IH s). destruct (show_history h s) as [[t s'] r]. simpl in *.
  exact IH.
Qed.

Lemma set_rag_system_same s rag :
  rag_system s = Some rag -> set_rag_system (Some rag) s = s.
Proof. destruct s; simpl. now intros ->. Qed.

(** Asking leaves the session as it is and passes on what [query] gives. *)
Lemma session_query_run q s rag :
  rag_system s = Some rag ->
  state_of (session_query w q s) = s
  /\ result_of (session_query w q s) = result_of (query w q rag)
  /\ events_of (session_query w q s) = events_of (query w q rag).
Proof.
  intros Hr. unfold session_query. rewrite Hr.
  pose proof (query_state w rag q) as Hq.
  destruct (query w q rag) as [[t rag'] r].
  unfold state_of, result_of, events_of in *. simpl in *. subst rag'.
  now rewrite (set_rag_system_same _ _ Hr).
Qed.

Lemma session_query_state q s : state_of (session_query w q s) = s.
Proof.
  destruct (rag_system s) as [rag|] eqn:Hr.
  - now apply (session_query_run q s rag).
  - unfold session_query. now rewrite Hr.
Qed.

End PageFacts.

Section RunFacts.
Variable w : World.
Import Hoare.

Lemma show_history_ends h s (Q : SessionState -> result unit -> Prop) :
  Q s (Ok tt) -> ends_in (show_history h) s Q.
Proof.
  intros H. unfold ends_in.
  destruct (show_history_run h s) as [-> ->]. exact H.
Qed.

Lemma session_query_ends q s rag (Q : SessionState -> result string -> Prop) :
  rag_system s = Some rag ->
  Q s (result_of (query w q rag)) -> ends_in (session_query w q) s Q.
Proof.
  intros Hr H. unfold ends_in.
  destruct (session_query_run w q s rag Hr) as (-> & -> & _). exact H.
Qed.

(** *** Steps that keep the index, the flag and the video id *)

Section Keeps.
Variable I : SessionState -> Prop.
Hypothesis I_same : forall s s', I s -> same_video s s' -> I s'.

Lemma keeps_history h s : I s -> I (set_chat_history h s).
Proof. intros H. apply (I_same s); [exact H | now repeat split]. Qed.

Lemma key_check_keeps wd s :
  I s ->
  ends_in (if openai_api_key wd then st "success" "✅ API Key loaded"
           else st "error" "⚠️ OPENAI_API_KEY not found in .env file" ;; st_stop)
          s (fun s' _ => I s').
Proof.
  intros H. destruct (openai_api_key wd); [now apply ends_emit|].
  apply ends_bind, ends_emit. now apply ends_raise.
Qed.

Lemma clear_button_keeps wd s :
  I s ->
  ends_in (s0 <- get ;;
           if indexed s0 then
             if clear_conversation_clicked wd then
               modify (set_chat_history []) ;; st_rerun
             else ret tt
           else ret tt) s (fun s' _ => I s').
Proof.
  intros H. apply ends_bind, ends_get.
  destruct (indexed s); [|now apply ends_ret].
  destruct (clear_conversation_clicked wd); [|now apply ends_ret].
  apply ends_bind, ends_modify. apply ends_raise. now apply keeps_history.
Qed.

Lemma main_area_keeps wd s :
  I s -> ends_in (main_area w wd) s (fun s' _ => I s').
Proof.
  intros H. unfold main_area. apply ends_bind, ends_get.
  destruct (indexed s); cbn [negb]; [|now apply ends_emit].
  apply ends_bind, ends_emit. apply ends_bind, show_history_ends.
  destruct (question wd) as [q|]; [|now apply ends_ret].
  destruct (String.eqb q ""); [now apply ends_ret|].
  apply ends_bind, ends_emit. apply ends_try_keeps.
  - apply ends_bind_keeps.
    + unfold ends_in. now rewrite session_query_state.
    + intros a s1 H1. apply ends_bind, ends_emit. apply ends_modify.
      now apply keeps_history.
  - intros e s1 H1. now apply ends_emit.
Qed.

(** A run keeps [I] as soon as the Process Video handler does. *)
Lemma script_keeps wd s :
  (forall s1, I s1 ->
     ends_in (if process_video_clicked wd then process_video w wd else ret tt)
             s1 (fun s2 _ => I s2)) ->
  I s -> I (run w wd s).
Proof.
  intros Hproc H.
  change (ends_in (script w wd) s (fun s' _ => I s')).
  unfold script, sidebar.
  apply ends_bind_keeps; [|intros _ s1 H1; now apply main_area_keeps].
  apply ends_bind_keeps; [now apply key_check_keeps|].
  intros _ s1 H1. apply ends_bind_keeps; [now apply Hproc|].
  intros _ s2 H2. now apply clear_button_keeps.
Qed.

End Keeps.

Lemma same_video_refl s : same_video s s.
Proof. now repeat split. Qed.

Lemma same_video_trans s0 s s' :
  same_video s0 s -> same_video s s' -> same_video s0 s'.
Proof.
  intros (H1 & H2 & H3) (H4 & H5 & H6). repeat split; congruence.
Qed.

Lemma session_ok_same s s' : session_ok s -> same_video s s' -> session_ok s'.
Proof.
  intros (H1 & H2) (Hr & Hi & _). split.
  - rewrite Hr, Hi. exact H1.
  - intros rag. rewrite Hr. apply H2.
Qed.

Lemma indexed_chain rag transcript :
  result_of (index_transcript w transcript rag) = Ok tt ->
  chain (state_of (index_transcript w transcript rag)) <> None.
Proof.
  intros H.
  destruct (from_documents w (chunks_of w rag transcript) (embeddings_model rag))
    as [vs|e] eqn:Hfd.
  - rewrite (index_transcript_succeeds w _ _ _ Hfd). discriminate.
  - rewrite (index_transcript_fails w _ _ _ Hfd) in H. discriminate.
Qed.

Lemma process_video_ok wd s :
  session_ok s -> session_ok (state_of (process_video w wd s)).
Proof.
  intros Hok.
  destruct (String.eqb_spec (youtube_url wd) "") as [He|Hne];
    [now rewrite process_video_empty_url|].
  rewrite (process_video_ends w wd s Hne).
  pose proof (process_attempt_cases w wd s) as H. unfold ends_in in H.
  assert (Hvid : forall (vid : string) (b : bool),
             session_ok (if b return SessionState then set_indexed false (set_video_id (Some vid) s)
                         else set_video_id (Some vid) s)).
  { intros vid [|]; destruct Hok as (H1 & H2); split; simpl; auto.
    discriminate. }
  destruct H as [(_ & -> & ->) | (vid & _ & [(e & _ & -> & ->) | (tr & _ & H)])].
  - exact Hok.
  - apply Hvid.
  - destruct H as [(e & _ & -> & ->) | (Hi & -> & ->)]; [apply Hvid|].
    split; simpl; [discriminate|].
    intros rag Hr. inversion Hr; subst. now apply indexed_chain.
Qed.

End RunFacts.

Lemma reachable_session_ok s : reachable s -> session_ok s.
Proof.
  induction 1 as [|w wd s _ IH].
  - split; simpl; discriminate.
  - apply (script_keeps w session_ok session_ok_same); [|exact IH].
    intros s1 H1. destruct (process_video_clicked wd).
    + unfold ends_in. now apply process_video_ok.
    + now apply Hoare.ends_ret.
Qed.

(** X10: in every session that runs of the page can produce, whatever the
    outside world answered, a session marked as indexed holds an index, a
    stored index has its chain, and so a question asked in the chat is
    never refused as not indexed: it reaches the retriever. *)
Theorem reachable_session_has_chain (s : SessionState) :
  reachable s ->
  (indexed s = true -> exists rag, rag_system s = Some rag)
  /\ (forall rag, rag_system s = Some rag ->
        exists c, chain rag = Some c
                  /\ forall w q, exists rest,
                       events_of (session_query w q s)
                       = ERetrieve (r_k (c_retriever c)) q :: rest).
Proof.
  intros H. apply reachable_session_ok in H as (H1 & H2). split.
  - intros Hi. destruct (rag_system s) as [rag|]; [eauto|].
    now destruct (H1 Hi).
  - intros rag Hr. specialize (H2 rag Hr).
    destruct (chain rag) as [c|] eqn:Hc; [|contradiction].
    exists c. split; [reflexivity|]. intros w q.
    destruct (session_query_run w q s rag Hr) as (_ & _ & ->).
    unfold query, chain_invoke, bind, get, call, events_of. simpl.
    rewrite Hc. cbv beta iota.
    destruct (retriever_invoke w (c_retriever c) q); simpl; [|eauto].
    destruct (format (c_prompt c) _); simpl; eauto.
Qed.

Lemma reachable_session_has_chain_witness :
  reachable Sample.ready_session
  /\ exists rag, rag_system Sample.ready_session = Some rag.
Proof.
  assert (H : reachable Sample.ready_session).
  { unfold Sample.ready_session. apply reach_run, reach_run, reach_fresh. }
  split; [exact H|].
  exact (proj1 (reachable_session_has_chain Sample.ready_session H) eq_refl).
Defined.

(** X11: only the Process Video button can change the video: a run in
    which it is not clicked leaves the stored index, the indexed flag and
    the video id as they were. *)
Theorem run_without_process_keeps_video (w : World) (wd : Widgets) (s : SessionState) :
  process_video_clicked wd = false ->
  rag_system (run w wd s) = rag_system s
  /\ indexed (run w wd s) = indexed s
  /\ video_id (run w wd s) = video_id s.
Proof.
  intros Hp.
  apply (script_keeps w (same_video s) (same_video_trans s));
    [|apply same_video_refl].
  intros s1 H1. rewrite Hp. now apply Hoare.ends_ret.
Qed.

Lemma run_without_process_keeps_video_witness :
  rag_system (run Sample.world_up (Sample.ask Sample.first_url "Who sings?")
                  Sample.ready_session)
  = rag_system Sample.ready_session.
Proof.
  exact (proj1 (run_without_process_keeps_video Sample.world_up
                  (Sample.ask Sample.first_url "Who sings?")
                  Sample.ready_session eq_refl)).
Defined.

(** X12: a question asked in the chat appends exactly one turn, the
    question with the answer, at the end of the history when the query
    succeeds, and leaves the session as it was when the query fails. *)
Theorem ask_appends_turn (w : World) (wd : Widgets) (s : SessionState)
        (rag : RAGSystem) (q : string) :
  openai_api_key wd = true ->
  process_video_clicked wd = false ->
  clear_conversation_clicked wd = false ->
  indexed s = true ->
  rag_system s = Some rag ->
  question wd = Some q -> q <> "" ->
  run w wd s
  = match result_of (query w q rag) with
    | Ok answer => set_chat_history (chat_history s ++ [(q, answer)])%list s
    | Raise _ => s
    end.
Proof.
  intros Hkey Hproc Hclear Hidx Hrag Hq Hne.
  change (ends_in (script w wd) s
            (fun s' _ => s' = match result_of (query w q rag) with
                              | Ok answer =>
                                  set_chat_history (chat_history s ++ [(q, answer)])%list s
                              | Raise _ => s
                              end)).
  unfold script, sidebar. rewrite Hkey, Hproc.
  apply Hoare.ends_bind. apply Hoare.ends_bind, Hoare.ends_emit.
  apply Hoare.ends_bind, Hoare.ends_ret.
  apply Hoare.ends_bind, Hoare.ends_get. rewrite Hidx, Hclear.
  apply Hoare.ends_ret.
  unfold main_area. apply Hoare.ends_bind, Hoare.ends_get. rewrite Hidx.
  cbn [negb]. apply Hoare.ends_bind, Hoare.ends_emit.
  apply Hoare.ends_bind, show_history_ends. rewrite Hq.
  destruct (String.eqb_spec q "") as [|_]; [contradiction|].
  apply Hoare.ends_bind, Hoare.ends_emit.
  apply Hoare.ends_try_except, Hoare.ends_bind.
  apply (session_query_ends w q s rag _ Hrag).
  destruct (result_of (query w q rag)) as [a|e].
  - apply Hoare.ends_bind, Hoare.ends_emit. now apply Hoare.ends_modify.
  - destruct (is_Exception e); [now apply Hoare.ends_emit | reflexivity].
Qed.

Lemma ask_appends_turn_witness :
  run Sample.world_up (Sample.ask Sample.first_url "Who sings?") Sample.ready_session
  = set_chat_history [("What is the video about?", "It is a song.");
                      ("Who sings?", "It is a song.")] Sample.ready_session.
Proof.
  refine (ask_appends_turn Sample.world_up (Sample.ask Sample.first_url "Who sings?")
            Sample.ready_session
            (indexed_with
               {| vs_documents := [ {| page_content := "never gonna give you up" |} ];
                  vs_vectors := [[0%float]] |} Sample.new_rag)
            "Who sings?" eq_refl eq_refl eq_refl eq_refl eq_refl eq_refl _).
  discriminate.
Defined.

(** X13: Clear Conversation, offered only while the session is indexed,
    empties the chat history and nothing else: the index stays, no outside
    service is called, and the run ends by asking for a rerun. *)
Theorem clear_conversation_run (w : World) (wd : Widgets) (s : SessionState) :
  openai_api_key wd = true ->
  process_video_clicked wd = false ->
  clear_conversation_clicked wd = true ->
  indexed s = true ->
  script w wd s
  = ([ESt "success" "✅ API Key loaded"], set_chat_history [] s, Raise RerunException).
Proof.
  intros Hkey Hproc Hclear Hidx.
  unfold script, sidebar, bind, get, modify, st, emit, ret, st_rerun, raise.
  rewrite Hkey, Hproc. cbv beta iota. rewrite Hidx, Hclear. reflexivity.
Qed.

(** X14: runs that do nothing: without the API key the script stops at
    once, even with Process Video clicked; and while the session is not
    indexed and Process Video is not clicked, questions and the Clear
    button are ignored. In both cases the session is unchanged and no
    outside service is called. *)
Theorem idle_runs (w : World) (wd : Widgets) (s : SessionState) :
  (openai_api_key wd = false ->
   script w wd s
   = ([ESt "error" "⚠️ OPENAI_API_KEY not found in .env file"], s, Raise StopException))
  /\ (openai_api_key wd = true ->
      process_video_clicked wd = false ->
      indexed s = false ->
      script w wd s
      = ([ESt "success" "✅ API Key loaded";
          ESt "info" "👈 Enter a YouTube URL in the sidebar and click 'Process Video' to get started!"],
         s, Ok tt)).
Proof.
  split.
  - intros Hkey.
    unfold script, sidebar, bind, st, emit, st_stop, raise. rewrite Hkey. reflexivity.
  - intros Hkey Hproc Hidx.
    unfold script, sidebar, main_area, bind, get, st, emit, ret.
    rewrite Hkey, Hproc. cbv beta iota zeta. rewrite Hidx.
    cbv beta iota zeta. rewrite Hidx. reflexivity.
Qed.

(** X15: a click on Process Video with a URL that yields no video id calls
    no outside service and leaves the whole session as it was: an empty URL
    is reported and the run goes on; any other such URL is reported as
    invalid and the script stops. *)
Theorem process_video_without_id (w : World) (wd : Widgets) (s : SessionState) :
  (youtube_url wd = "" ->
   process_video w wd s = ([ESt "error" "Please enter a YouTube URL"], s, Ok tt))
  /\ (youtube_url wd <> "" ->
      extract_video_id (youtube_url wd) = None ->
      process_video w wd s
      = ([ESt "error" "❌ Invalid YouTube URL"], s, Raise StopException)).
Proof.
  split.
  - intros H. unfold process_video. rewrite H. reflexivity.
  - intros Hne Hx. unfold process_video.
    destruct (String.eqb_spec (youtube_url wd) ""); [contradiction|].
    unfold try_except, process_attempt, invalid_url, bind, st, emit, st_stop, raise.
    rewrite Hx. reflexivity.
Qed.

Lemma clear_conversation_run_witness :
  script Sample.world_up click_clear Sample.ready_session
  = ([ESt "success" "✅ API Key loaded"],
     set_chat_history [] Sample.ready_session, Raise RerunException).
Proof.
  exact (clear_conversation_run Sample.world_up click_clear Sample.ready_session
           eq_refl eq_refl eq_refl eq_refl).
Defined.

Lemma idle_runs_witness :
  script Sample.world_up (click_process_without_key Sample.second_url)
         Sample.ready_session
  = ([ESt "error" "⚠️ OPENAI_API_KEY not found in .env file"],
     Sample.ready_session, Raise StopException)
  /\ script Sample.world_up (Sample.ask Sample.first_url "Who sings?") fresh_session
     = ([ESt "success" "✅ API Key loaded";
         ESt "info" "👈 Enter a YouTube URL in the sidebar and click 'Process Video' to get started!"],
        fresh_session, Ok tt).
Proof.
  split.
  - exact (proj1 (idle_runs Sample.world_up
                    (click_process_without_key Sample.second_url)
                    Sample.ready_session) eq_refl).
  - exact (proj2 (idle_runs Sample.world_up
                    (Sample.ask Sample.first_url "Who sings?") fresh_session)
             eq_refl eq_refl eq_refl).
Defined.

Lemma process_video_without_id_witness :
  process_video Sample.world_up (Sample.click_process "") Sample.ready_session
  = ([ESt "error" "Please enter a YouTube URL"], Sample.ready_session, Ok tt)
  /\ process_video Sample.world_up
       (Sample.click_process "https://www.youtube.com/watch?v=short")
       Sample.ready_session
     = ([ESt "error" "❌ Invalid YouTube URL"], Sample.ready_session,
        Raise StopException).
Proof.
  split.
  - exact (proj1 (process_video_without_id Sample.world_up (Sample.click_process "")
                    Sample.ready_session) eq_refl).
  - refine (proj2 (process_video_without_id Sample.world_up
                     (Sample.click_process "https://www.youtube.com/watch?v=short")
                     Sample.ready_session) _ _).
    + discriminate.
    + vm_compute. reflexivity.
Defined.

Section HandlerFacts.
Variable w : World.

(** What [fetch_transcript] returns does not depend on the caller's state. *)
Lemma fetch_transcript_result_state {S T} vid (s : S) (t : T) :
  result_of (fetch_transcript w vid s) = result_of (fetch_transcript w vid t).
Proof.
  destruct (ytt_fetch w vid first_languages) as [sn|e] eqn:H1.
  - now rewrite !(fetch_transcript_en_ok w vid _ _ H1).
  - destruct (is_NoTranscriptFound e) eqn:Hn.
    + apply is_NoTranscriptFound_inv in Hn as [m ->].
      destruct (ytt_fetch w vid fallback_languages) as [sn|e2] eqn:H2.
      * now rewrite !(fetch_transcript_fallback_ok w vid _ _ _ H1 H2).
      * destruct (is_Exception e2) eqn:He.
        -- now rewrite !(fetch_transcript_fallback_fails w vid _ _ _ H1 H2 He).
        -- now rewrite !(fetch_transcript_fallback_uncaught w vid _ _ _ H1 H2 He).
    + now rewrite !(fetch_transcript_en_other w vid _ _ H1 Hn).
Qed.

End HandlerFacts.

(** C2 (amended): when an indexing attempt fails, the stored index and the
    chat history are left as they were and the session is marked as not
    indexed; when it succeeds, the new index is stored (the one built, with
    the settings of the sliders, from the transcript fetched for the id of
    the URL), the history is emptied and the session is marked as indexed,
    all in that one step; so the handler never replaces the index without
    emptying the history. *)
Theorem process_video_outcome (w : World) (wd : Widgets) (s : SessionState) :
  youtube_url wd <> "" ->
  (forall e, result_of (process_attempt w wd s) = Raise e ->
             is_Exception e = true ->
             rag_system (state_of (process_video w wd s)) = rag_system s
             /\ chat_history (state_of (process_video w wd s)) = chat_history s
             /\ indexed (state_of (process_video w wd s)) = false)
  /\ (result_of (process_attempt w wd s) = Ok tt ->
      (exists vid transcript vs,
          extract_video_id (youtube_url wd) = Some vid
          /\ result_of (fetch_transcript w vid tt) = Ok transcript
          /\ from_documents w
               (create_documents w (splitter (rag_of_widgets wd)) [transcript])
               (embeddings_model (rag_of_widgets wd)) = Ok vs
          /\ state_of (index_transcript w transcript (rag_of_widgets wd))
             = indexed_with vs (rag_of_widgets wd)
          /\ rag_system (state_of (process_video w wd s))
             = Some (indexed_with vs (rag_of_widgets wd)))
      /\ chat_history (state_of (process_video w wd s)) = []
      /\ indexed (state_of (process_video w wd s)) = true)
  /\ (rag_system (state_of (process_video w wd s)) <> rag_system s ->
      chat_history (state_of (process_video w wd s)) = []).
Proof.
  intros Hurl. rewrite (process_video_ends w wd s Hurl).
  pose proof (process_attempt_cases w wd s) as H. unfold ends_in in H.
  destruct H as [(_ & Hs & Hr) | (vid & Hx & [(e & _ & Hs & Hr) | (tr & Hf & H)])].
  - (* no id in the URL *)
    rewrite Hr, Hs. split; [|split].
    + intros e He. inversion He; subst e. discriminate.
    + discriminate.
    + intros Hne. now contradiction Hne.
  - (* the transcript could not be fetched *)
    rewrite Hr, Hs. split; [|split].
    + intros e' He' Hexc. inversion He'; subst e'. now rewrite Hexc.
    + discriminate.
    + intros Hne. exfalso. apply Hne. now destruct (is_Exception e).
  - destruct H as [(e & _ & Hs & Hr) | (Hi & Hs & Hr)].
    + (* the index could not be built *)
      rewrite Hr, Hs. split; [|split].
      * intros e' He' Hexc. inversion He'; subst e'. now rewrite Hexc.
      * discriminate.
      * intros Hne. exfalso. apply Hne. now destruct (is_Exception e).
    + (* indexed *)
      rewrite Hr, Hs. split; [|split].
      * discriminate.
      * intros _.
        destruct (from_documents w (chunks_of w (rag_of_widgets wd) tr)
                    (embeddings_model (rag_of_widgets wd))) as [vs|e] eqn:Hfd;
          [|rewrite (index_transcript_fails w _ _ _ Hfd) in Hi; discriminate].
        assert (Hst : state_of (index_transcript w tr (rag_of_widgets wd))
                      = indexed_with vs (rag_of_widgets wd))
          by now rewrite (index_transcript_succeeds w _ _ _ Hfd).
        rewrite Hst. split; [|split; reflexivity].
        exists vid, tr, vs. split; [exact Hx|]. split.
        { now rewrite (fetch_transcript_result_state w vid tt
                         (set_video_id (Some vid) s)). }
        split; [exact Hfd|]. split; [exact Hst | reflexivity].
      * intros _. reflexivity.
Qed.

Lemma process_video_outcome_witness :
  (rag_system (state_of (process_video Sample.world_no_embeddings
                           (Sample.click_process Sample.second_url)
                           Sample.ready_session))
   = rag_system Sample.ready_session
   /\ chat_history (state_of (process_video Sample.world_no_embeddings
                                (Sample.click_process Sample.second_url)
                                Sample.ready_session))
      = chat_history Sample.ready_session
   /\ indexed (state_of (process_video Sample.world_no_embeddings
                           (Sample.click_process Sample.second_url)
                           Sample.ready_session)) = false)
  /\ ((exists vid transcript vs,
          extract_video_id (youtube_url (Sample.click_process Sample.second_url))
          = Some vid
          /\ result_of (fetch_transcript world_by_video vid tt) = Ok transcript
          /\ from_documents world_by_video
               (create_documents world_by_video
                  (splitter (rag_of_widgets (Sample.click_process Sample.second_url)))
                  [transcript])
               (embeddings_model (rag_of_widgets (Sample.click_process Sample.second_url)))
             = Ok vs
          /\ state_of (index_transcript world_by_video transcript
                         (rag_of_widgets (Sample.click_process Sample.second_url)))
             = indexed_with vs (rag_of_widgets (Sample.click_process Sample.second_url))
          /\ rag_system (state_of (process_video world_by_video
                                     (Sample.click_process Sample.second_url)
                                     Sample.ready_session))
             = Some (indexed_with vs
                       (rag_of_widgets (Sample.click_process Sample.second_url))))
      /\ chat_history (state_of (process_video world_by_video
                                   (Sample.click_process Sample.second_url)
                                   Sample.ready_session)) = []
      /\ indexed (state_of (process_video world_by_video
                              (Sample.click_process Sample.second_url)
                              Sample.ready_session)) = true).
Proof.
  assert (Hurl : youtube_url (Sample.click_process Sample.second_url) <> "")
    by discriminate.
  split.
  - exact (proj1 (process_video_outcome Sample.world_no_embeddings
                    (Sample.click_process Sample.second_url)
                    Sample.ready_session Hurl) _ eq_refl eq_refl).
  - exact (proj1 (proj2 (process_video_outcome world_by_video
                           (Sample.click_process Sample.second_url)
                           Sample.ready_session Hurl)) eq_refl).
Defined.

(** The index stored by the successful run above is the one of the second
    video, not the one the session held. *)
Example second_video_replaces_first :
  rag_system (state_of (process_video world_by_video
                          (Sample.click_process Sample.second_url)
                          Sample.ready_session))
  = Some (indexed_with
            {| vs_documents := [ {| page_content := "transcript of 9bZkp7q19f0" |} ];
               vs_vectors := [[0%float]] |} Sample.new_rag)
  /\ rag_system (state_of (process_video world_by_video
                             (Sample.click_process Sample.second_url)
                             Sample.ready_session))
     <> rag_system Sample.ready_session.
Proof.
  split; [reflexivity|]. intros H. vm_compute in H. discriminate H.
Qed.

(** X16: a successful Process Video builds the index from the transcript
    of the id extracted from the URL, with the chunk size, overlap, [k]
    and temperature of the sliders, and leaves exactly: that index, the
    id, the indexed flag set, and an empty history. *)
Theorem process_video_uses_settings (w : World) (wd : Widgets) (s : SessionState) :
  youtube_url wd <> "" ->
  result_of (process_attempt w wd s) = Ok tt ->
  exists vid transcript vs,
    extract_video_id (youtube_url wd) = Some vid
    /\ result_of (fetch_transcript w vid tt) = Ok transcript
    /\ from_documents w
         (create_documents w {| ts_chunk_size := w_chunk_size wd;
                                ts_chunk_overlap := w_chunk_overlap wd |}
                           [transcript])
         {| emb_model := "text-embedding-3-small" |} = Ok vs
    /\ state_of (process_video w wd s)
       = {| rag_system :=
              Some (indexed_with vs (RAGSystem_init (w_chunk_size wd) (w_chunk_overlap wd)
                                       (k_retrieval wd) (w_temperature wd)));
            indexed := true;
            video_id := Some vid;
            chat_history := [] |}.
Proof.
  intros Hne Hok. rewrite (process_video_ends w wd s Hne), Hok.
  pose proof (process_attempt_cases w wd s) as H. unfold ends_in in H.
  rewrite Hok in H.
  destruct H as [(_ & _ & H) | (vid & Hx & [(e & _ & _ & H) | (tr & Hf & H)])];
    try discriminate H.
  destruct H as [(e & _ & _ & H) | (Hi & -> & _)]; [discriminate H|].
  exists vid, tr.
  destruct (from_documents w (chunks_of w (rag_of_widgets wd) tr)
              (embeddings_model (rag_of_widgets wd))) as [vs|e] eqn:Hfd.
  - exists vs. rewrite (index_transcript_succeeds w _ _ _ Hfd).
    repeat split; auto.
    now rewrite (fetch_transcript_result_state w vid tt (set_video_id (Some vid) s)).
  - rewrite (index_transcript_fails w _ _ _ Hfd) in Hi. discriminate.
Qed.

Lemma process_video_uses_settings_witness :
  exists vid transcript vs,
    extract_video_id (youtube_url (Sample.click_process Sample.second_url)) = Some vid
    /\ result_of (fetch_transcript Sample.world_up vid tt) = Ok transcript
    /\ from_documents Sample.world_up
         (create_documents Sample.world_up
            {| ts_chunk_size := 1000; ts_chunk_overlap := 200 |} [transcript])
         {| emb_model := "text-embedding-3-small" |} = Ok vs
    /\ state_of (process_video Sample.world_up (Sample.click_process Sample.second_url)
                   Sample.ready_session)
       = {| rag_system :=
              Some (indexed_with vs (RAGSystem_init 1000 200 4 Sample.default_temperature));
            indexed := true;
            video_id := Some vid;
            chat_history := [] |}.
Proof.
  refine (process_video_uses_settings Sample.world_up
            (Sample.click_process Sample.second_url) Sample.ready_session _ eq_refl).
  discriminate.
Defined.

(** X17: the video id of the session is overwritten as soon as an id is
    extracted, before the transcript is fetched: after a click on Process
    Video with a URL that has an id, the session holds that id whether the
    attempt then succeeds or fails. *)
Theorem process_video_stores_id_first (w : World) (wd : Widgets) (s : SessionState)
        (vid : string) :
  extract_video_id (youtube_url wd) = Some vid ->
  video_id (state_of (process_video w wd s)) = Some vid.
Proof.
  intros Hx. destruct (extract_some_nonempty _ _ Hx) as [_ Hne].
  rewrite (process_video_ends w wd s Hne).
  pose proof (process_attempt_cases w wd s) as H.
  unfold ends_in, attempt_cases in H. rewrite Hx in H.
  destruct H as [(H & _) | (v & Hv & H)]; [discriminate H|].
  inversion Hv; subst v.
  assert (Hvid : forall b : bool,
             video_id (if b return SessionState
                       then set_indexed false (set_video_id (Some vid) s)
                       else set_video_id (Some vid) s) = Some vid)
    by (intros [|]; reflexivity).
  destruct H as [(e & _ & Hs & Hr) | (tr & _ & [(e & _ & Hs & Hr) | (_ & Hs & Hr)])];
    rewrite Hr, Hs; try apply Hvid. reflexivity.
Qed.

Lemma process_video_stores_id_first_witness :
  video_id (state_of (process_video Sample.world_no_transcript
                        (Sample.click_process Sample.second_url)
                        Sample.ready_session)) = Some "9bZkp7q19f0".
Proof.
  apply process_video_stores_id_first. vm_compute. reflexivity.
Defined.

(** ** The command-line loop *)

Section LoopFacts.
Variable w : World.
Variable py : Builtins.

Lemma format_from_raises kw : forall n t o e,
  String.length t <= n ->
  format_from t o kw = Raise e -> is_Exception e = true.
Proof.
  induction n as [|n IH]; intros t o e Hn.
  - destruct t; [|simpl in Hn; lia]. cbn [format_from].
    destruct o; [|discriminate]. intros H; now inversion H.
  - destruct t as [|ch t]; cbn [format_from].
    + destruct o; [|discriminate]. intros H; now inversion H.
    + simpl in Hn. assert (Ht : String.length t <= n) by lia.
      destruct o as [name|].
      * destruct (Ascii.eqb ch "}"%char); [|now apply IH].
        destruct (find (fun kv => String.eqb (fst kv) name) kw);
          [|intros H; now inversion H].
        destruct (format_from t None kw) eqn:Hf; [discriminate|].
        intros H; inversion H; subst. exact (IH _ _ _ Ht Hf).
      * destruct (Ascii.eqb ch "{"%char).
        -- destruct t as [|c2 t2]; [intros H; now inversion H|].
           destruct (Ascii.eqb c2 "{"%char); [|now apply IH].
           simpl in Ht.
           destruct (format_from t2 None kw) eqn:Hf; [discriminate|].
           intros H; inversion H; subst. eapply IH; [|exact Hf]; lia.
        -- destruct (Ascii.eqb ch "}"%char).
           ++ destruct t as [|c2 t2]; [intros H; now inversion H|].
              destruct (Ascii.eqb c2 "}"%char); [|intros H; now inversion H].
              simpl in Ht.
              destruct (format_from t2 None kw) eqn:Hf; [discriminate|].
              intros H; inversion H; subst. eapply IH; [|exact Hf]; lia.
           ++ destruct (format_from t None kw) eqn:Hf; [discriminate|].
              intros H; inversion H; subst. exact (IH _ _ _ Ht Hf).
Qed.

Lemma query_raises_exception q rag e :
  raises_exceptions w ->
  result_of (query w q rag) = Raise e -> is_Exception e = true.
Proof.
  intros (Hr & Hl). unfold query, chain_invoke, bind, get, call, raise, result_of.
  simpl. destruct (chain rag) as [c|]; simpl.
  - destruct (retriever_invoke w (c_retriever c) q) as [docs|e'] eqn:Hret; simpl.
    + destruct (format (c_prompt c) _) as [filled|e'] eqn:Hfmt; simpl.
      * intros H. now apply (Hl _ _ _ H).
      * intros H; inversion H; subst.
        exact (format_from_raises _ _ _ _ _ (le_n _) Hfmt).
    + intros H; inversion H; subst. now apply (Hr _ _ _ Hret).
  - intros H; now inversion H.
Qed.

Lemma query_retrieved q rag c :
  chain rag = Some c -> retrieved (events_of (query w q rag)) = [q].
Proof.
  intros Hc. unfold query, chain_invoke, bind, get, call, events_of. simpl.
  rewrite Hc. cbv beta iota.
  destruct (retriever_invoke w (c_retriever c) q); simpl; [|reflexivity].
  destruct (format (c_prompt c) _); reflexivity.
Qed.

Lemma retrieved_app t t' : retrieved (t ++ t') = (retrieved t ++ retrieved t')%list.
Proof.
  induction t as [|e t IH]; [reflexivity|].
  destruct e; simpl; now rewrite ?IH.
Qed.

(** One pass of the loop body. *)
Lemma answer_quit q rag :
  is_quit py q = true ->
  answer_question w py q rag = ([EPrint "👋 Goodbye!"], rag, Ok Break).
Proof. intros H. unfold answer_question. now rewrite H. Qed.

Lemma answer_blank q rag :
  is_quit py q = false -> str_strip py q = "" ->
  answer_question w py q rag = ([], rag, Ok Continue).
Proof. intros H Hb. unfold answer_question. now rewrite H, Hb. Qed.

Lemma answer_asked q rag :
  raises_exceptions w ->
  is_quit py q = false -> str_strip py q <> "" ->
  state_of (answer_question w py q rag) = rag
  /\ result_of (answer_question w py q rag) = Ok Continue
  /\ retrieved (events_of (answer_question w py q rag))
     = retrieved (events_of (query w q rag)).
Proof.
  intros Hw H Hb. unfold answer_question. rewrite H.
  destruct (String.eqb_spec (str_strip py q) ""); [contradiction|].
  pose proof (query_state w rag q) as Hs.
  pose proof (query_raises_exception q rag) as He.
  unfold bind, try_except, print, emit, ret, state_of, result_of, events_of in *.
  destruct (query w q rag) as [[t rag'] [a|e]]; simpl in *; subst rag'.
  - repeat split. now rewrite app_nil_r, retrieved_app, app_nil_r.
  - rewrite (He e Hw eq_refl). simpl.
    repeat split. now rewrite app_nil_r, retrieved_app, app_nil_r.
Qed.

End LoopFacts.

Section LoopRuns.
Variable w : World.
Variable py : Builtins.
Hypothesis Hw : raises_exceptions w.

(** The loop from any standard input: where it stops, how it ends, and
    what it sends to the retriever. *)
Lemma qa_loop_run : forall stdin rag,
  state_of (qa_loop w py stdin rag) = (after_quit py stdin, rag)
  /\ result_of (qa_loop w py stdin rag)
     = (if existsb (is_quit py) stdin then Ok tt else Raise EOFError)
  /\ retrieved (events_of (qa_loop w py stdin rag))
     = flat_map (fun q => retrieved (events_of (query w q rag)))
                (asked py (before_quit py stdin)).
Proof.
  induction stdin as [|q rest IH]; intros rag; [repeat split|].
  cbn [qa_loop after_quit before_quit existsb].
  destruct (is_quit py q) eqn:Hq.
  - rewrite (answer_quit w py q rag Hq). repeat split.
  - unfold asked. cbn [filter orb].
    destruct (String.eqb_spec (str_strip py q) "") as [Hb|Hb]; cbn [negb].
    + rewrite (answer_blank w py q rag Hq Hb).
      specialize (IH rag). unfold state_of, result_of, events_of in *.
      destruct (qa_loop w py rest rag) as [[t' s'] r']. simpl in *.
      exact IH.
    + destruct (answer_asked w py q rag Hw Hq Hb) as (Hs & Hr & He).
      unfold state_of, result_of, events_of in Hs, Hr, He.
      destruct (answer_question w py q rag) as [[t rag'] r]. simpl in Hs, Hr, He.
      subst rag' r. specialize (IH rag).
      unfold state_of, result_of, events_of in *.
      destruct (qa_loop w py rest rag) as [[t' s'] r']. simpl in *.
      destruct IH as (-> & -> & IH3). repeat split.
      now rewrite retrieved_app, He, IH3.
Qed.

End LoopRuns.

(** X18: the question loop stops at the first line that is a quit word:
    the lines after it are left unread, the loop ends normally and the
    object is as it was, whatever the queries before it returned or
    raised. *)
Theorem qa_loop_stops_at_quit (w : World) (py : Builtins) (rag : RAGSystem)
        (questions : list string) (quit_word : string) (unread : list string) :
  raises_exceptions w ->
  Forall (fun q => is_quit py q = false) questions ->
  is_quit py quit_word = true ->
  state_of (qa_loop w py (questions ++ quit_word :: unread) rag) = (unread, rag)
  /\ result_of (qa_loop w py (questions ++ quit_word :: unread) rag) = Ok tt.
Proof.
  intros Hw Hqs Hquit.
  destruct (qa_loop_run w py Hw (questions ++ quit_word :: unread) rag)
    as (Hs & Hr & _).
  rewrite Hs, Hr. clear Hs Hr. split.
  - f_equal. induction Hqs as [|q qs Hq _ IH]; simpl.
    + now rewrite Hquit.
    + now rewrite Hq.
  - rewrite existsb_app. simpl. rewrite Hquit.
    now rewrite orb_true_r.
Qed.

(** X19: without a quit word the loop reads every line, and it ends with
    the [EOFError] of [input], which nothing catches; errors of the
    queries themselves never end the loop. *)
Theorem qa_loop_end_of_input (w : World) (py : Builtins) (rag : RAGSystem)
        (questions : list string) :
  raises_exceptions w ->
  Forall (fun q => is_quit py q = false) questions ->
  state_of (qa_loop w py questions rag) = ([], rag)
  /\ result_of (qa_loop w py questions rag) = Raise EOFError.
Proof.
  intros Hw Hqs.
  destruct (qa_loop_run w py Hw questions rag) as (Hs & Hr & _).
  rewrite Hs, Hr. clear Hs Hr. split.
  - f_equal. induction Hqs as [|q qs Hq _ IH]; simpl; [reflexivity|].
    now rewrite Hq.
  - induction Hqs as [|q qs Hq _ IH]; simpl; [reflexivity|].
    now rewrite Hq.
Qed.

(** X20: on an indexed object the loop sends to the retriever exactly the
    lines read before the first quit word that are not blank, once each,
    in order, and as typed (neither stripped nor lower-cased). *)
Theorem qa_loop_retrieves_each_question (w : World) (py : Builtins)
        (rag : RAGSystem) (c : Chain) (stdin : list string) :
  raises_exceptions w ->
  chain rag = Some c ->
  retrieved (events_of (qa_loop w py stdin rag)) = asked py (before_quit py stdin).
Proof.
  intros Hw Hc.
  destruct (qa_loop_run w py Hw stdin rag) as (_ & _ & ->).
  induction (asked py (before_quit py stdin)) as [|q l IH]; [reflexivity|].
  cbn [flat_map]. now rewrite (query_retrieved w q rag c Hc), IH.
Qed.

Lemma world_up_raises_exceptions : raises_exceptions Sample.world_up.
Proof. split; intros; discriminate. Qed.

Lemma qa_loop_stops_at_quit_witness :
  state_of (qa_loop Sample.world_up Ascii7.builtins
              (["Who sings?"; "   "] ++ "Quit" :: ["never read"])
              Sample.rag_two_chunks)
  = (["never read"], Sample.rag_two_chunks)
  /\ result_of (qa_loop Sample.world_up Ascii7.builtins
                  (["Who sings?"; "   "] ++ "Quit" :: ["never read"])
                  Sample.rag_two_chunks) = Ok tt.
Proof.
  apply qa_loop_stops_at_quit.
  - exact world_up_raises_exceptions.
  - repeat constructor.
  - reflexivity.
Defined.

Lemma qa_loop_end_of_input_witness :
  state_of (qa_loop world_retriever_down Ascii7.builtins ["Who sings?"; "Why?"]
              Sample.rag_two_chunks) = ([], Sample.rag_two_chunks)
  /\ result_of (qa_loop world_retriever_down Ascii7.builtins ["Who sings?"; "Why?"]
                  Sample.rag_two_chunks) = Raise EOFError.
Proof.
  apply qa_loop_end_of_input.
  - split; intros r q e H; [inversion H; reflexivity | discriminate H].
  - repeat constructor.
Defined.

Lemma qa_loop_retrieves_each_question_witness :
  retrieved (events_of (qa_loop Sample.world_up Ascii7.builtins
                          ["  Who sings? "; ""; "WHY?"; "q"; "never read"]
                          Sample.rag_two_chunks))
  = ["  Who sings? "; "WHY?"].
Proof.
  refine (qa_loop_retrieves_each_question Sample.world_up Ascii7.builtins
            Sample.rag_two_chunks
            {| c_retriever :=
                 {| r_store :=
                      {| vs_documents := [ {| page_content := "never gonna" |};
                                           {| page_content := "give you up" |} ];
                         vs_vectors := [[0%float]; [0%float]] |};
                    r_search_type := "similarity"; r_k := 4 |};
               c_prompt := prompt Sample.new_rag;
               c_llm := llm Sample.new_rag |}
            ["  Who sings? "; ""; "WHY?"; "q"; "never read"]
            world_up_raises_exceptions eq_refl).
Defined.

(** ** [main] before the loop *)

Section MainFacts.
Variable w : World.
Variable py : Builtins.

(** [fetch_transcript] does the same whatever state it is run in. *)
Lemma fetch_transcript_any_state {S} vid (s : S) :
  fetch_transcript w vid s
  = (events_of (fetch_transcript w vid tt), s, result_of (fetch_transcript w vid tt)).
Proof.
  destruct (ytt_fetch w vid first_languages) as [sn|e] eqn:H1.
  - now rewrite !(fetch_transcript_en_ok w vid _ _ H1).
  - destruct (is_NoTranscriptFound e) eqn:Hn.
    + apply is_NoTranscriptFound_inv in Hn as [m ->].
      destruct (ytt_fetch w vid fallback_languages) as [sn|e2] eqn:H2.
      * now rewrite !(fetch_transcript_fallback_ok w vid _ _ _ H1 H2).
      * destruct (is_Exception e2) eqn:He.
        -- now rewrite !(fetch_transcript_fallback_fails w vid _ _ _ H1 H2 He).
        -- now rewrite !(fetch_transcript_fallback_uncaught w vid _ _ _ H1 H2 He).
    + now rewrite !(fetch_transcript_en_other w vid _ _ H1 Hn).
Qed.

Lemma fetch_or_report_failed vid stdin e :
  result_of (fetch_transcript w vid tt) = Raise e ->
  is_Exception e = true ->
  fetch_or_report w py vid stdin
  = ((events_of (fetch_transcript w vid tt)
      ++ [EPrint ("❌ Error fetching transcript: " ++ str e)])%list, stdin, Ok None).
Proof.
  intros Hf He. unfold fetch_or_report, try_except, bind.
  rewrite (fetch_transcript_any_state vid stdin), Hf, He. reflexivity.
Qed.

Lemma fetch_or_report_fetched vid stdin transcript :
  result_of (fetch_transcript w vid tt) = Ok transcript ->
  fetch_or_report w py vid stdin
  = ((events_of (fetch_transcript w vid tt)
      ++ [EPrint (msg_preview py transcript)])%list, stdin, Ok (Some transcript)).
Proof.
  intros Hf. unfold fetch_or_report, try_except, bind.
  rewrite (fetch_transcript_any_state vid stdin), Hf. reflexivity.
Qed.

(** [main] once an id is extracted from the first line. *)
Lemma main_with_id url rest vid :
  extract_video_id url = Some vid ->
  main w py true (url :: rest)
  = match (fetched <- fetch_or_report w py vid ;;
           match fetched with
           | None => ret tt
           | Some transcript_text => index_and_ask w py transcript_text
           end) rest
    with
    | (t, s, r) =>
        (EPrint "Enter YouTube URL: " :: EPrint ("🎥 Video ID: " ++ vid) :: t, s, r)
    end.
Proof.
  intros Hx. destruct (extract_some_nonempty _ _ Hx) as [Hv _].
  unfold main. cbn [negb]. unfold bind at 1. unfold input.
  rewrite Hx, Hv. unfold bind at 1. unfold print at 1, emit.
  destruct ((fetched <- fetch_or_report w py vid ;;
             match fetched with
             | None => ret tt
             | Some transcript_text => index_and_ask w py transcript_text
             end) rest) as [[t s] r].
  reflexivity.
Qed.

(** [main] once the transcript is fetched. *)
Lemma main_fetched url rest vid transcript :
  extract_video_id url = Some vid ->
  result_of (fetch_transcript w vid tt) = Ok transcript ->
  main w py true (url :: rest)
  = match index_and_ask w py transcript rest with
    | (t, s, r) =>
        ((EPrint "Enter YouTube URL: " :: EPrint ("🎥 Video ID: " ++ vid)
          :: (events_of (fetch_transcript w vid tt)
              ++ [EPrint (msg_preview py transcript)]) ++ t)%list, s, r)
    end.
Proof.
  intros Hx Hf. rewrite (main_with_id url rest vid Hx).
  unfold bind. rewrite (fetch_or_report_fetched vid rest _ Hf).
  cbv beta iota.
  destruct (index_and_ask w py transcript rest) as [[t s] r]. reflexivity.
Qed.

Lemma fetch_transcript_retrieves_nothing vid :
  retrieved (events_of (fetch_transcript w vid tt)) = [].
Proof.
  destruct (ytt_fetch w vid first_languages) as [sn|e] eqn:H1.
  - now rewrite (fetch_transcript_en_ok w vid _ _ H1).
  - destruct (is_NoTranscriptFound e) eqn:Hn.
    + apply is_NoTranscriptFound_inv in Hn as [m ->].
      destruct (ytt_fetch w vid fallback_languages) as [sn|e2] eqn:H2.
      * now rewrite (fetch_transcript_fallback_ok w vid _ _ _ H1 H2).
      * destruct (is_Exception e2) eqn:He.
        -- now rewrite (fetch_transcript_fallback_fails w vid _ _ _ H1 H2 He).
        -- now rewrite (fetch_transcript_fallback_uncaught w vid _ _ _ H1 H2 He).
    + now rewrite (fetch_transcript_en_other w vid _ _ H1 Hn).
Qed.

End MainFacts.

(** X21: [main] calls no outside service until a video id is extracted:
    without the API key it reads nothing and returns; with no line to read
    it ends with [EOFError]; and a first line without an id is reported as
    an invalid URL, after which [main] returns and the other lines stay
    unread. *)
Theorem main_stops_without_id (w : World) (py : Builtins) :
  (forall stdin,
     main w py false stdin
     = ([EPrint "❌ Error: OPENAI_API_KEY not found in .env file"], stdin, Ok tt))
  /\ main w py true [] = ([EPrint "Enter YouTube URL: "], [], Raise EOFError)
  /\ (forall url rest,
        extract_video_id url = None ->
        main w py true (url :: rest)
        = ([EPrint "Enter YouTube URL: "; EPrint "❌ Invalid YouTube URL"], rest, Ok tt)).
Proof.
  split; [|split].
  - reflexivity.
  - reflexivity.
  - intros url rest Hx. unfold main, bind, input, print, emit. cbn [negb].
    rewrite Hx. reflexivity.
Qed.

Lemma main_stops_without_id_witness :
  main Sample.world_up Ascii7.builtins true ["dQw4w9WgXcQ"; "Who sings?"]
  = ([EPrint "Enter YouTube URL: "; EPrint "❌ Invalid YouTube URL"],
     ["Who sings?"], Ok tt).
Proof.
  apply (proj2 (proj2 (main_stops_without_id Sample.world_up Ascii7.builtins))).
  vm_compute. reflexivity.
Defined.

(** X22: when the transcript cannot be fetched, [main] reports the error
    and returns normally: nothing is embedded and no question is read. *)
Theorem main_fetch_failure (w : World) (py : Builtins) (url vid : string)
        (rest : list string) (e : exn) :
  extract_video_id url = Some vid ->
  result_of (fetch_transcript w vid tt) = Raise e ->
  is_Exception e = true ->
  main w py true (url :: rest)
  = ((EPrint "Enter YouTube URL: " :: EPrint ("🎥 Video ID: " ++ vid)
      :: events_of (fetch_transcript w vid tt)
      ++ [EPrint ("❌ Error fetching transcript: " ++ str e)])%list,
     rest, Ok tt).
Proof.
  intros Hx Hf He. rewrite (main_with_id w py url rest vid Hx).
  unfold bind. rewrite (fetch_or_report_failed w py vid rest e Hf He).
  unfold ret. cbn. now rewrite app_nil_r.
Qed.

Lemma main_fetch_failure_witness :
  main Sample.world_offline Ascii7.builtins true [Sample.first_url; "Who sings?"]
  = ([EPrint "Enter YouTube URL: "; EPrint "🎥 Video ID: dQw4w9WgXcQ";
      EFetch "dQw4w9WgXcQ" ["en"];
      EPrint "❌ Error fetching transcript: connection failed"],
     ["Who sings?"], Ok tt).
Proof.
  refine (main_fetch_failure Sample.world_offline Ascii7.builtins Sample.first_url
            "dQw4w9WgXcQ" ["Who sings?"] Sample.connection_error _ eq_refl eq_refl).
  vm_compute. reflexivity.
Defined.

(** X23: unlike the page, [main] does not catch a failure of
    [index_transcript]: the error ends [main] as it is, before the loop,
    and no question is read. *)
Theorem main_index_failure (w : World) (py : Builtins) (url vid transcript : string)
        (rest : list string) (e : exn) :
  extract_video_id url = Some vid ->
  result_of (fetch_transcript w vid tt) = Ok transcript ->
  result_of (index_transcript w transcript main_rag) = Raise e ->
  state_of (main w py true (url :: rest)) = rest
  /\ result_of (main w py true (url :: rest)) = Raise e.
Proof.
  intros Hx Hf Hi. rewrite (main_fetched w py url rest vid _ Hx Hf).
  unfold index_and_ask, bind, on_local. fold main_rag.
  unfold result_of in Hi.
  destruct (index_transcript w transcript main_rag) as [[t rag'] r].
  simpl in Hi. subst r. split; reflexivity.
Qed.

Lemma main_index_failure_witness :
  state_of (main Sample.world_no_embeddings Ascii7.builtins true
              [Sample.first_url; "Who sings?"]) = ["Who sings?"]
  /\ result_of (main Sample.world_no_embeddings Ascii7.builtins true
                  [Sample.first_url; "Who sings?"])
     = Raise (OtherError "AuthenticationError" "invalid api key").
Proof.
  refine (main_index_failure Sample.world_no_embeddings Ascii7.builtins
            Sample.first_url "dQw4w9WgXcQ" "never gonna give you up"
            ["Who sings?"] _ _ eq_refl eq_refl).
  vm_compute. reflexivity.
Defined.

(** X24: once the video is indexed, [main] is the question loop on the
    indexed object over the remaining lines: it ends as the loop ends,
    leaves unread what the loop leaves unread, and sends to the retriever
    what the loop sends. *)
Theorem main_enters_loop (w : World) (py : Builtins) (url vid transcript : string)
        (rest : list string) :
  extract_video_id url = Some vid ->
  result_of (fetch_transcript w vid tt) = Ok transcript ->
  result_of (index_transcript w transcript main_rag) = Ok tt ->
  state_of (main w py true (url :: rest))
  = fst (state_of (qa_loop w py rest (state_of (index_transcript w transcript main_rag))))
  /\ result_of (main w py true (url :: rest))
     = result_of (qa_loop w py rest (state_of (index_transcript w transcript main_rag)))
  /\ retrieved (events_of (main w py true (url :: rest)))
     = retrieved (events_of (qa_loop w py rest
                               (state_of (index_transcript w transcript main_rag)))).
Proof.
  intros Hx Hf Hi. rewrite (main_fetched w py url rest vid _ Hx Hf).
  unfold index_and_ask, bind, on_local, print, emit. fold main_rag.
  pose proof (fetch_transcript_retrieves_nothing w vid) as Hev.
  destruct (from_documents w (chunks_of w main_rag transcript)
              (embeddings_model main_rag)) as [vs|e] eqn:Hfd;
    [|rewrite (index_transcript_fails w _ _ _ Hfd) in Hi; discriminate].
  rewrite (index_transcript_succeeds w _ _ _ Hfd).
  unfold state_of, result_of, events_of. cbn [fst snd].
  destruct (qa_loop w py rest (indexed_with vs main_rag)) as [[t [stdin' rag']] r].
  cbn [fst snd]. repeat split.
  unfold events_of in Hev.
  cbn [retrieved]. rewrite !retrieved_app, Hev. reflexivity.
Qed.

Lemma main_enters_loop_witness :
  state_of (main Sample.world_up Ascii7.builtins true
              [Sample.first_url; "Who sings?"; "exit"; "never read"])
  = fst (state_of (qa_loop Sample.world_up Ascii7.builtins
                     ["Who sings?"; "exit"; "never read"]
                     (state_of (index_transcript Sample.world_up
                                  "never gonna give you up" main_rag)))).
Proof.
  refine (proj1 (main_enters_loop Sample.world_up Ascii7.builtins Sample.first_url
                   "dQw4w9WgXcQ" "never gonna give you up"
                   ["Who sings?"; "exit"; "never read"] _ eq_refl eq_refl)).
  vm_compute. reflexivity.
Defined.

(** ** Sizes of the joined texts *)

Lemma string_length_app (a b : string) :
  String.length (a ++ b) = String.length a + String.length b.
Proof. induction a as [|c a IH]; simpl; [reflexivity | now rewrite IH]. Qed.

Lemma string_app_assoc (a b c : string) : (a ++ b) ++ c = a ++ b ++ c.
Proof. induction a as [|x a IH]; simpl; [reflexivity | now rewrite IH]. Qed.

Lemma join_length sep texts :
  String.length (PyStr.join sep texts)
  = total_length texts + String.length sep * (length texts - 1).
Proof.
  destruct texts as [|a l]; [simpl; lia|].
  revert a. induction l as [|b l IH]; intros a.
  - simpl. lia.
  - change (PyStr.join sep (a :: b :: l)) with (a ++ sep ++ PyStr.join sep (b :: l)).
    rewrite !string_length_app, IH. simpl. lia.
Qed.

Lemma join_app sep (a b : list string) :
  a <> [] -> b <> [] ->
  PyStr.join sep (a ++ b)%list = PyStr.join sep a ++ sep ++ PyStr.join sep b.
Proof.
  intros Ha Hb. induction a as [|x a IH]; [contradiction|].
  destruct a as [|y a].
  - destruct b as [|z b]; [contradiction | reflexivity].
  - change (PyStr.join sep ((x :: y :: a) ++ b)%list)
      with (x ++ sep ++ PyStr.join sep ((y :: a) ++ b)%list).
    rewrite IH by discriminate.
    change (PyStr.join sep (x :: y :: a)) with (x ++ sep ++ PyStr.join sep (y :: a)).
    now rewrite !string_app_assoc.
Qed.

(** X25: the size of a fetched transcript: when the request for ["en"]
    returns snippets, [fetch_transcript] returns a text whose length is the
    total length of the snippet texts plus one for each gap between two
    snippets; with no snippet at all it returns the empty text and still
    succeeds. *)
Theorem fetch_transcript_length {S : Type} (w : World) (vid : string) (s : S)
        (snippets : list Snippet) :
  ytt_fetch w vid ["en"] = Ok snippets ->
  exists txt,
    result_of (fetch_transcript w vid s) = Ok txt
    /\ String.length txt
       = total_length (map text snippets) + (length snippets - 1)
    /\ (snippets = [] -> txt = "").
Proof.
  intros H. rewrite (fetch_transcript_en_ok w vid s _ H).
  eexists. split; [reflexivity|]. split.
  - rewrite join_length, length_map. simpl. lia.
  - intros ->. reflexivity.
Qed.

Lemma fetch_transcript_length_witness :
  exists txt,
    result_of (fetch_transcript Sample.world_up "dQw4w9WgXcQ" tt) = Ok txt
    /\ String.length txt = total_length (map text Sample.snippets) + (2 - 1)
    /\ (Sample.snippets = [] -> txt = "").
Proof.
  exact (fetch_transcript_length Sample.world_up "dQw4w9WgXcQ" tt Sample.snippets
           eq_refl).
Defined.

(** X26: the context of two batches of documents is the context of the
    first, a blank line, and the context of the second; no documents give
    the empty context and one document gives its text as it is. *)
Theorem format_docs_app (first second : list Document) :
  (first <> [] -> second <> [] ->
   _format_docs (first ++ second)%list
   = _format_docs first ++ PyStr.nl ++ PyStr.nl ++ _format_docs second)
  /\ _format_docs [] = ""
  /\ (forall d, _format_docs [d] = page_content d).
Proof.
  split; [|split; reflexivity].
  intros Ha Hb. unfold _format_docs. rewrite map_app, join_app.
  - now rewrite string_app_assoc.
  - destruct first; [contradiction | discriminate].
  - destruct second; [contradiction | discriminate].
Qed.

Lemma format_docs_app_witness :
  _format_docs ([ {| page_content := "never gonna" |} ]
                ++ [ {| page_content := "give you up" |} ])%list
  = _format_docs [ {| page_content := "never gonna" |} ] ++ PyStr.nl ++ PyStr.nl
    ++ _format_docs [ {| page_content := "give you up" |} ].
Proof.
  apply (proj1 (format_docs_app [ {| page_content := "never gonna" |} ]
                  [ {| page_content := "give you up" |} ])); discriminate.
Defined.
